(** * whisper-cpu: timestamp formatting, audio classification, output paths
      and the batch walker

    A shallow embedding of [src/utils.py], [src/batch_process.py] and
    [main] of [src/main.py], followed by the properties of the repository's
    specification that concern them.

    Conventions of the embedding.
    - Python [str] values are [string]s; the texts the program handles here
      (extensions, file names) are read as ASCII, on which [str.lower] is
      the change of the letters [A]-[Z].
    - A Python number passed to [format_timestamp_lrc] is the rational it
      denotes.  For a finite non-negative double below [2^53], CPython's
      [x // 60] and [x % 60] are exact (both go through [fmod], which never
      rounds) and the ['.2f'] conversion is correctly rounded, ties to even,
      from the exact binary value; so the function on doubles is the
      function on [Q] below, applied to the double's exact value.
    - The file system and the speech engine are an explicit world that is
      threaded through the calls, together with a trace of what the program
      prints and of its calls of the engine; [print] itself is taken not to
      fail.  Python exceptions are values of a result type; [Path.exists]
      and [Path.is_file] may raise, and [glob] is a generator that may end
      on an exception after the paths it has yielded.
    - The class [WhisperLRCGenerator] of [whisper_lrc.py] is not part of the
      sources at hand: the engine enters as the two operations of the
      interface [Host] that construct it and call it.
    - [os.path] and [pathlib] are those of CPython 3.11 on POSIX. *)

From Stdlib Require Import ZArith QArith Qround Qabs Lqa Lia.
From Stdlib Require Import Bool List Arith Ascii String DecimalString DecimalZ.
Import ListNotations.

Local Close Scope Q_scope.
Local Open Scope list_scope.
Local Open Scope string_scope.

(** ** Python string helpers *)

Module PyStr.

(** [str(n)] for a Python [int]. *)
Definition str_int (z : Z) : string :=
  NilZero.string_of_int (Z.to_int z).

(** [c * n] for a one-character string [c]. *)
Fixpoint repeat_char (c : ascii) (n : nat) : string :=
  match n with
  | O => EmptyString
  | S k => String c (repeat_char c k)
  end.

(** [s.rjust(width, '0')]. *)
Definition zfill_left (width : nat) (s : string) : string :=
  repeat_char "0"%char (width - String.length s) ++ s.

(** [format(z, '02d')]: sign first, then zeros up to a total width of 2. *)
Definition format_02d (z : Z) : string :=
  if (z <? 0)%Z
  then "-" ++ zfill_left 1 (str_int (Z.abs z))
  else zfill_left 2 (str_int z).

(** Rounding to the nearest integer, ties to the even neighbour. *)
Definition round_half_even (q : Q) : Z :=
  let f := Qfloor q in
  match (q - inject_Z f) ?= (1 # 2) with
  | Lt => f
  | Gt => (f + 1)%Z
  | Eq => if Z.even f then f else (f + 1)%Z
  end%Q.

(** [format(q, '05.2f')]: two fractional digits, sign first, then zeros up
    to a total width of 5. *)
Definition format_05_2f (q : Q) : string :=
  let h := Z.abs (round_half_even (q * inject_Z 100)) in
  let body := str_int (h / 100) ++ "." ++ zfill_left 2 (str_int (h mod 100)) in
  match q ?= 0 with
  | Lt => "-" ++ zfill_left 4 body
  | _ => zfill_left 5 body
  end%Q.

End PyStr.

(** ** [utils.format_timestamp_lrc] *)

(** [seconds // 60] and [seconds % 60]. *)
Definition floordiv60 (seconds : Q) : Z := Qfloor (seconds / inject_Z 60).
Definition mod60 (seconds : Q) : Q :=
  (seconds - inject_Z 60 * inject_Z (floordiv60 seconds))%Q.

Definition format_timestamp_lrc (seconds : Q) : string :=
  let minutes := floordiv60 seconds in
  let remaining_seconds := mod60 seconds in
  "[" ++ PyStr.format_02d minutes ++ ":"
      ++ PyStr.format_05_2f remaining_seconds ++ "]".

(** The exact values of the doubles that Python reads for the literals
    [91.47] and [59.999] ([float.as_integer_ratio]). *)
Definition double_91_47 : Q := 3218314514965463 # 35184372088832.
Definition double_59_999 : Q := 8444108563831325 # 140737488355328.

(** ** Reading a timestamp back *)

(** The character of a decimal digit. *)
Definition digit_char (d : Z) : ascii := ascii_of_nat (48 + Z.to_nat d).

(** What [format(q, '05.2f')] prints for a non-negative [q] that rounds to
    [h] hundredths. *)
Definition render_hundredths (h : Z) : string :=
  PyStr.zfill_left 5
    (PyStr.str_int (h / 100) ++ "." ++ PyStr.zfill_left 2 (PyStr.str_int (h mod 100))).

Definition is_digit (c : ascii) : bool :=
  let n := nat_of_ascii c in (48 <=? n)%nat && (n <=? 57)%nat.

Definition digit_value (c : ascii) : Z := (Z.of_nat (nat_of_ascii c) - 48)%Z.

(** The ten characters of a string of the shape [[dd:dd.dd]], when it has
    that shape: what the regular expression [^\[\d{2}:\d{2}\.\d{2}\]$]
    accepts, with its six digits. *)
Definition timestamp_digits (s : string)
  : option (ascii * ascii * ascii * ascii * ascii * ascii) :=
  match list_ascii_of_string s with
  | [lb; m1; m2; colon; s1; s2; dot; f1; f2; rb] =>
      if Ascii.eqb lb "[" && Ascii.eqb colon ":" && Ascii.eqb dot "."
         && Ascii.eqb rb "]"
         && is_digit m1 && is_digit m2 && is_digit s1 && is_digit s2
         && is_digit f1 && is_digit f2
      then Some (m1, m2, s1, s2, f1, f2)
      else None
  | _ => None
  end.

Definition matches_timestamp_regex (s : string) : bool :=
  match timestamp_digits s with
  | Some _ => true
  | None => false
  end.

(** The minutes and the seconds (as a rational) that a timestamp shows. *)
Definition parse_timestamp (s : string) : option (Z * Q) :=
  match timestamp_digits s with
  | Some (m1, m2, s1, s2, f1, f2) =>
      Some ((10 * digit_value m1 + digit_value m2)%Z,
            inject_Z (10 * digit_value s1 + digit_value s2)
            + inject_Z (10 * digit_value f1 + digit_value f2) / inject_Z 100)%Q
  | None => None
  end.

(** The part of a timestamp between the colon and the closing bracket. *)
Definition seconds_field (s : string) : string :=
  match String.index 0 ":" s with
  | Some i => String.substring (S i) (String.length s - S i - 1) s
  | None => ""
  end.

(** ** Python exceptions and results *)

(** The three built-in classes that derive from [BaseException] but not from
    [Exception]; every other class, built-in or user-defined, derives from
    [Exception] and is kept by name. *)
Inductive exc_class : Type :=
| KeyboardInterrupt
| SystemExit
| GeneratorExit
| ExceptionClass (name : string).

Record exn : Type := mkExn { exn_class : exc_class; exn_msg : string }.

(** [isinstance(e, Exception)]: what an [except Exception] clause catches. *)
Definition isinstance_Exception (e : exn) : bool :=
  match exn_class e with
  | ExceptionClass _ => true
  | _ => false
  end.

Inductive result (A : Type) : Type :=
| Ret (a : A)
| Raise (e : exn).
Arguments Ret {A} a.
Arguments Raise {A} e.

Definition ValueError (msg : string) : exn := mkExn (ExceptionClass "ValueError") msg.

(** ** More string helpers: [lower], [rfind], slices, [split] *)

Module PyStrOps.

Definition lower_char (c : ascii) : ascii :=
  let n := nat_of_ascii c in
  if (65 <=? n)%nat && (n <=? 90)%nat then ascii_of_nat (n + 32) else c.

Definition upper_char (c : ascii) : ascii :=
  let n := nat_of_ascii c in
  if (97 <=? n)%nat && (n <=? 122)%nat then ascii_of_nat (n - 32) else c.

Fixpoint map_chars (f : ascii -> ascii) (s : string) : string :=
  match s with
  | EmptyString => EmptyString
  | String c r => String (f c) (map_chars f r)
  end.

(** [s.lower()] and [s.upper()]. *)
Definition lower : string -> string := map_chars lower_char.
Definition upper : string -> string := map_chars upper_char.

(** [s.rfind(c)], scanning from index [i] with [last] the best so far. *)
Fixpoint rfind_from (c : ascii) (s : string) (i last : Z) : Z :=
  match s with
  | EmptyString => last
  | String d r => rfind_from c r (i + 1) (if Ascii.eqb d c then i else last)
  end.
Definition rfind (c : ascii) (s : string) : Z := rfind_from c s 0 (-1).

(** [s[:n]] and [s[n:]] for [0 <= n]. *)
Fixpoint take (n : nat) (s : string) : string :=
  match n, s with
  | S k, String c r => String c (take k r)
  | _, _ => EmptyString
  end.
Fixpoint drop (n : nat) (s : string) : string :=
  match n, s with
  | S k, String _ r => drop k r
  | _, _ => s
  end.

Fixpoint contains_char (c : ascii) (s : string) : bool :=
  match s with
  | EmptyString => false
  | String d r => Ascii.eqb d c || contains_char c r
  end.

(** [s.split(c)], [cur] being the piece under construction, reversed. *)
Fixpoint rev_string (s acc : string) : string :=
  match s with
  | EmptyString => acc
  | String c r => rev_string r (String c acc)
  end.
Fixpoint split_from (c : ascii) (s cur : string) : list string :=
  match s with
  | EmptyString => [rev_string cur ""]
  | String d r =>
      if Ascii.eqb d c
      then rev_string cur "" :: split_from c r ""
      else split_from c r (String d cur)
  end.
Definition split (c : ascii) (s : string) : list string := split_from c s "".

(** [sep.join(l)]. *)
Fixpoint join (sep : string) (l : list string) : string :=
  match l with
  | [] => ""
  | [x] => x
  | x :: r => x ++ sep ++ join sep r
  end.

Definition startswith (p s : string) : bool := String.prefix p s.

(** [s == c * len(s)]: every character of [s] is [c]. *)
Fixpoint all_char (c : ascii) (s : string) : bool :=
  match s with
  | EmptyString => true
  | String d r => Ascii.eqb d c && all_char c r
  end.

(** [s.rstrip(c)]. *)
Fixpoint rstrip (c : ascii) (s : string) : string :=
  match s with
  | EmptyString => EmptyString
  | String d r => if all_char c s then EmptyString else String d (rstrip c r)
  end.

End PyStrOps.
Import PyStrOps.

(** ** [utils.is_audio_file] *)

Definition audio_extensions : list string :=
  [ ".mp3"; ".mp4"; ".wav"; ".m4a"; ".flac"; ".aac"; ".ogg";
    ".wma"; ".opus"; ".mp2"; ".m4b"; ".m4p"; ".webm"; ".mkv";
    ".avi"; ".mov"; ".wmv"; ".flv"; ".3gp" ].

(** [x in s] for a set of strings given by its elements. *)
Definition str_in (x : string) (s : list string) : bool :=
  existsb (String.eqb x) s.

Definition is_audio_file (file_extension : string) : bool :=
  str_in (lower file_extension) audio_extensions.

(** ** [os.path] (posixpath) *)

Module os_path.

(** [posixpath.basename]. *)
Definition basename (p : string) : string :=
  let i := (rfind "/" p + 1)%Z in
  drop (Z.to_nat i) p.

(** The loop of [genericpath._splitext] that skips leading dots: from
    [filenameIndex], is there a character other than ['.'] before
    [dotIndex]? [n] is the number of indices left to look at. *)
Fixpoint has_non_dot (p : string) (n : nat) : bool :=
  match n, p with
  | S k, String c r => negb (Ascii.eqb c ".") || has_non_dot r k
  | _, _ => false
  end.

(** [posixpath.splitext]. *)
Definition splitext (p : string) : string * string :=
  let sepIndex := rfind "/" p in
  let dotIndex := rfind "." p in
  if (dotIndex >? sepIndex)%Z
     && has_non_dot (drop (Z.to_nat (sepIndex + 1)) p)
                    (Z.to_nat (dotIndex - (sepIndex + 1)))
  then (take (Z.to_nat dotIndex) p, drop (Z.to_nat dotIndex) p)
  else (p, "").

(** [posixpath.dirname]. *)
Definition dirname (p : string) : string :=
  let i := (rfind "/" p + 1)%Z in
  let head := take (Z.to_nat i) p in
  if negb (String.eqb head "") && negb (all_char "/" head)
  then rstrip "/" head
  else head.

End os_path.

(** ** [utils.get_output_filename] *)

Definition get_output_filename (input_filename : string) : string :=
  let base_name := fst (os_path.splitext (os_path.basename input_filename)) in
  base_name ++ ".lrc".

(** ** [pathlib.PurePosixPath] (CPython 3.11) *)

Module pathlib.

(** A parsed path: the root (["/"], ["//"] or empty) and the components
    after it. *)
Record Path : Type := mkPath { root : string; parts : list string }.

(** [PurePosixPath(s)]: empty and ["."] components vanish; exactly two
    leading slashes are kept as a root of their own. *)
Definition parse (s : string) : Path :=
  let r :=
    if startswith "/" s
    then if startswith "//" s && negb (startswith "///" s) then "//" else "/"
    else "" in
  mkPath r (filter (fun x => negb (String.eqb x "" || String.eqb x "."))
                   (split "/" s)).

(** [str(p)]. *)
Definition str (p : Path) : string :=
  match root p, parts p with
  | "", [] => "."
  | r, l => r ++ join "/" l
  end.

(** [p.name] and [p.parent]. *)
Definition name (p : Path) : string := last (parts p) "".
Definition parent (p : Path) : Path := mkPath (root p) (removelast (parts p)).

(** The suffix of a file name: from its last dot, unless that dot is the
    first or the last character. *)
Definition name_suffix (n : string) : string :=
  let i := rfind "." n in
  if (0 <? i)%Z && (i <? Z.of_nat (String.length n) - 1)%Z
  then drop (Z.to_nat i) n
  else "".

(** [p.suffix] and [p.stem]. *)
Definition suffix (p : Path) : string := name_suffix (name p).
Definition name_stem (n : string) : string :=
  take (String.length n - String.length (name_suffix n)) n.
Definition stem (p : Path) : string := name_stem (name p).

(** [p.with_suffix(suffix)]. *)
Definition with_suffix (p : Path) (sfx : string) : result Path :=
  if contains_char "/" sfx then Raise (ValueError "Invalid suffix")
  else if (negb (String.eqb sfx "") && negb (startswith "." sfx))
          || String.eqb sfx "."
  then Raise (ValueError "Invalid suffix")
  else
    let n := name p in
    if String.eqb n "" then Raise (ValueError "path has an empty name")
    else
      let old_suffix := suffix p in
      let n' :=
        if String.eqb old_suffix "" then n ++ sfx
        else take (String.length n - String.length old_suffix) n ++ sfx in
      Ret (mkPath (root p) (removelast (parts p) ++ [n'])).

End pathlib.

(** ** State and exceptions

    A computation reads and updates a state and either returns a value or
    raises; the state reached when an exception is raised is kept, as the
    mutations of a Python program are. *)

Definition M (S A : Type) : Type := S -> S * result A.

Definition ret {S A} (a : A) : M S A := fun s => (s, Ret a).
Definition raise {S A} (e : exn) : M S A := fun s => (s, Raise e).
Definition bind {S A B} (m : M S A) (k : A -> M S B) : M S B :=
  fun s =>
    match m s with
    | (s', Ret a) => k a s'
    | (s', Raise e) => (s', Raise e)
    end.
Definition gets {S A} (f : S -> A) : M S A := fun s => (s, Ret (f s)).
Definition modify {S} (f : S -> S) : M S unit := fun s => (f s, Ret tt).

(** [try: body / except Exception as e: handler e]. *)
Definition try_except_Exception {S A} (body : M S A) (handler : exn -> M S A)
  : M S A :=
  fun s =>
    match body s with
    | (s', Ret a) => (s', Ret a)
    | (s', Raise e) =>
        if isinstance_Exception e then handler e s' else (s', Raise e)
    end.

Declare Scope py_scope.
Delimit Scope py_scope with py.
Notation "x <- m ;; k" := (bind m (fun x => k))
  (at level 61, m at next level, right associativity) : py_scope.
Notation "m ;; k" := (bind m (fun _ => k))
  (at level 61, right associativity) : py_scope.

(** [for x in l: body x]. *)
Fixpoint for_each {S A} (l : list A) (body : A -> M S unit) : M S unit :=
  match l with
  | [] => ret tt
  | x :: r => bind (body x) (fun _ => for_each r body)
  end.

(** [for x in l: r = f x; yield r], collected by [list(...)]. *)
Fixpoint collect {S A B} (l : list A) (f : A -> M S (option B)) : M S (list B) :=
  match l with
  | [] => ret []
  | x :: r =>
      bind (f x) (fun o =>
      bind (collect r f) (fun ys =>
      ret (match o with Some y => y :: ys | None => ys end)))
  end.

(** [enumerate(l, start)]. *)
Fixpoint enumerate {A} (l : list A) (start : nat) : list (nat * A) :=
  match l with
  | [] => []
  | x :: r => (start, x) :: enumerate r (S start)
  end.

(** Truth value of an optional string: [None] and [''] are false. *)
Definition truthy (o : option string) : bool :=
  match o with
  | Some s => negb (String.eqb s "")
  | None => false
  end.

(** ** The world of the batch walker *)

(** The handle of the speech engine, [whisper_lrc.WhisperLRCGenerator]; the
    class is outside this development and enters through [Host]. *)
Record WhisperLRCGenerator : Type := mkGenerator
  { model_size : string; device : string; compute_type : string }.

(** What the program asks of the file system and of the engine.  Every
    operation reads the current world; the two engine operations may change
    it (the engine writes the [.lrc] file) and may raise.  [Path.exists] and
    [Path.is_file] answer [False] for a missing path and raise the other
    errors of the operating system ([PermissionError] among them).  [glob]
    is a generator: it yields paths and may then end on an exception; it
    leaves out what it may not read ([PermissionError]) and raises the other
    errors.  [os.path.exists] and [os.path.isdir] answer [False] instead of
    raising. *)
Class Host (World : Type) : Type := {
  (** [Path.exists()], [Path.is_file()] *)
  path_exists : World -> pathlib.Path -> result bool;
  path_is_file : World -> pathlib.Path -> result bool;
  (** [Path(directory).resolve()] *)
  path_resolve : World -> string -> pathlib.Path;
  (** [directory.glob(pattern)]: the paths that the generator yields, in
      order, and the exception that ends it, if one does *)
  path_glob : World -> pathlib.Path -> string -> list pathlib.Path * option exn;
  (** [os.path.exists], [os.path.isdir] *)
  os_path_exists : World -> string -> bool;
  os_path_isdir : World -> string -> bool;
  (** [WhisperLRCGenerator(model_size, device, compute_type)] *)
  generator_new : World -> string -> string -> string ->
                  World * result WhisperLRCGenerator;
  (** [generator.transcribe_to_lrc(audio_path, output_path, language,
      beam_size, vad_filter)], returning the path of the file written *)
  transcribe_to_lrc : World -> WhisperLRCGenerator -> string -> option string ->
                      option string -> Z -> bool -> World * result string
}.

(** What the program does that can be observed: the lines it prints, one
    constructor per [print] call, and its calls of the engine.  The two
    lines of [print_statistics] that show elapsed wall-clock time are not
    part of the trace. *)
Inductive event : Type :=
| Transcribe (audio_path : string) (output_path : option string)
| SkipExisting (lrc_path : pathlib.Path)
| Processing (audio_path : pathlib.Path)
| OutputTo (lrc_path : pathlib.Path)
| Converted (audio_path : pathlib.Path)
| ConvertFailed (audio_path : pathlib.Path)
| ErrorDetail (msg : string)
| NoAudioFound (directory : string)
| FoundFiles (n : nat)
| ModeLine (recursive : bool)
| LanguageLine (language : string)
| Rule
| Progress (i n : nat)
| BatchDone
| TotalFiles (n : nat)
| ProcessedFiles (n : nat)
| SkippedFiles (n : nat)
| ErrorFiles (n : nat)
| MainError (msg : string)
| MainSuccess (output_file : string).

(** The attributes of a [BatchProcessor]. *)
Record BatchProcessor : Type := mkProcessor {
  generator : WhisperLRCGenerator;
  processed_count : nat;
  skipped_count : nat;
  error_count : nat
}.

(** The three ways a task can end, and the counter each one advances. *)
Inductive outcome : Type := Succeeded | Skipped | Failed.

Definition record_outcome (o : outcome) (b : BatchProcessor) : BatchProcessor :=
  match o with
  | Succeeded => mkProcessor (generator b) (processed_count b + 1)
                             (skipped_count b) (error_count b)
  | Skipped => mkProcessor (generator b) (processed_count b)
                           (skipped_count b + 1) (error_count b)
  | Failed => mkProcessor (generator b) (processed_count b)
                          (skipped_count b) (error_count b + 1)
  end.

Definition total_count (b : BatchProcessor) : nat :=
  processed_count b + skipped_count b + error_count b.

(** The counters after a sequence of outcomes, one per task. *)
Definition record_all (outcomes : list outcome) (b : BatchProcessor) : BatchProcessor :=
  fold_left (fun b o => record_outcome o b) outcomes b.

Section Batch.

Context {World : Type} `{Host World}.

(** The process: the world and what has happened, oldest event first. *)
Record Env : Type := mkEnv { env_world : World; env_trace : list event }.

(** A method call: the process together with the object [self]. *)
Record St : Type :=
  mkSt { self : BatchProcessor; world : World; trace : list event }.

Local Open Scope py_scope.

Definition print (l : event) : M St unit :=
  modify (fun st => mkSt (self st) (world st) (trace st ++ [l])).

Definition update_self (f : BatchProcessor -> BatchProcessor) : M St unit :=
  modify (fun st => mkSt (f (self st)) (world st) (trace st)).

(** [self.processed_count += 1] and its two siblings. *)
Definition incr_processed : M St unit := update_self (record_outcome Succeeded).
Definition incr_skipped : M St unit := update_self (record_outcome Skipped).
Definition incr_error : M St unit := update_self (record_outcome Failed).

(** A pure operation that may raise. *)
Definition lift {A} (r : result A) : M St A := fun st => (st, r).

(** The engine call of [process_file]. *)
Definition call_transcribe (audio_path : string) (output_path : option string)
    (language : option string) (beam_size : Z) (vad_filter : bool)
  : M St string :=
  fun st =>
    let (w, r) := transcribe_to_lrc (world st) (generator (self st)) audio_path
                    output_path language beam_size vad_filter in
    (mkSt (self st) w (trace st ++ [Transcribe audio_path output_path]), r).

(** [BatchProcessor.__init__]. *)
Definition BatchProcessor_init (model_size device compute_type : string)
    (env : Env) : Env * result BatchProcessor :=
  let (w, r) := generator_new (env_world env) model_size device compute_type in
  match r with
  | Ret g => (mkEnv w (env_trace env), Ret (mkProcessor g 0 0 0))
  | Raise e => (mkEnv w (env_trace env), Raise e)
  end.

(** A question to the world that may raise. *)
Definition ask {A} (f : World -> result A) : M St A :=
  fun st => (st, f (world st)).

(** [skip_existing and lrc_path.exists()]: [exists] is called only when
    [skip_existing] is set. *)
Definition skip_check (skip_existing : bool) (w : World)
    (lrc_path : pathlib.Path) : result bool :=
  if skip_existing then path_exists w lrc_path else Ret false.

(** [BatchProcessor.find_audio_files], collected into a list: the body of
    the loop runs on each path as [glob] yields it, and an exception that
    ends [glob] comes after the paths yielded before it. *)
Definition find_audio_files (directory : string) (recursive : bool)
  : M St (list (pathlib.Path * pathlib.Path)) :=
  directory' <- gets (fun st => path_resolve (world st) directory) ;;
  let pattern := if recursive then "**/*" else "*" in
  listing <- gets (fun st => path_glob (world st) directory' pattern) ;;
  audio_files <- collect (fst listing) (fun file_path =>
    is_file <- ask (fun w => path_is_file w file_path) ;;
    if is_file && is_audio_file (lower (pathlib.suffix file_path))
    then
      lrc_path <- lift (pathlib.with_suffix file_path ".lrc") ;;
      ret (Some (file_path, lrc_path))
    else ret None) ;;
  match snd listing with
  | None => ret audio_files
  | Some e => raise e
  end.

(** [BatchProcessor.process_file]. *)
Definition process_file (audio_path lrc_path : pathlib.Path)
    (language : option string) (beam_size : Z)
    (vad_filter skip_existing : bool) : M St bool :=
  skip <- ask (fun w => skip_check skip_existing w lrc_path) ;;
  if skip
  then
    print (SkipExisting lrc_path) ;;
    incr_skipped ;;
    ret false
  else
    try_except_Exception
      (print (Processing audio_path) ;;
       print (OutputTo lrc_path) ;;
       let audio_str := pathlib.str audio_path in
       let lrc_str := pathlib.str lrc_path in
       call_transcribe audio_str (Some lrc_str) language beam_size vad_filter ;;
       incr_processed ;;
       print (Converted audio_path) ;;
       ret true)
      (fun e =>
       incr_error ;;
       print (ConvertFailed audio_path) ;;
       print (ErrorDetail (exn_msg e)) ;;
       ret false).

(** [BatchProcessor.print_statistics]. *)
Definition print_statistics (total_files : nat) : M St unit :=
  print BatchDone ;;
  print (TotalFiles total_files) ;;
  processed <- gets (fun st => processed_count (self st)) ;;
  print (ProcessedFiles processed) ;;
  skipped <- gets (fun st => skipped_count (self st)) ;;
  print (SkippedFiles skipped) ;;
  errors <- gets (fun st => error_count (self st)) ;;
  print (ErrorFiles errors).

(** The loop of [process_directory] over the numbered tasks, [total]
    being [len(audio_files)]. *)
Definition process_loop (total : nat)
    (tasks : list (nat * (pathlib.Path * pathlib.Path)))
    (language : option string) (beam_size : Z)
    (vad_filter skip_existing : bool) : M St unit :=
  for_each tasks
    (fun '(i, (audio_path, lrc_path)) =>
       print (Progress i total) ;;
       process_file audio_path lrc_path language beam_size
                    vad_filter skip_existing ;;
       ret tt).

(** [BatchProcessor.process_directory]. *)
Definition process_directory (directory : string) (recursive : bool)
    (language : option string) (beam_size : Z)
    (vad_filter skip_existing : bool) : M St unit :=
  audio_files <- find_audio_files directory recursive ;;
  match audio_files with
  | [] => print (NoAudioFound directory) ;; ret tt
  | _ =>
      print (FoundFiles (List.length audio_files)) ;;
      print (ModeLine recursive) ;;
      (if truthy language
       then print (LanguageLine (match language with Some l => l | None => "" end))
       else ret tt) ;;
      print Rule ;;
      process_loop (List.length audio_files) (enumerate audio_files 1)
                   language beam_size vad_filter skip_existing ;;
      print_statistics (List.length audio_files)
  end.

(** The states and traces that the walk goes through. *)

(** After a skipped task. *)
Definition after_skip (st : St) (lrc_path : pathlib.Path) : St :=
  mkSt (record_outcome Skipped (self st)) (world st)
       (trace st ++ [SkipExisting lrc_path]).

(** What every attempted task adds to the trace first. *)
Definition attempt_trace (audio_path lrc_path : pathlib.Path) : list event :=
  [ Processing audio_path; OutputTo lrc_path;
    Transcribe (pathlib.str audio_path) (Some (pathlib.str lrc_path)) ].

(** After the progress line of task [i]. *)
Definition announce (st : St) (i total : nat) : St :=
  mkSt (self st) (world st) (trace st ++ [Progress i total]).

(** After the lines printed before the loop. *)
Definition header (st : St) (total : nat) (recursive : bool)
    (language : option string) : St :=
  mkSt (self st) (world st)
       (trace st ++ [FoundFiles total; ModeLine recursive]
          ++ (if truthy language
              then [LanguageLine (match language with Some l => l | None => "" end)]
              else [])
          ++ [Rule]).

(** The lines of [print_statistics] for the counters [b]. *)
Definition statistics (b : BatchProcessor) (total : nat) : list event :=
  [ BatchDone; TotalFiles total; ProcessedFiles (processed_count b);
    SkippedFiles (skipped_count b); ErrorFiles (error_count b) ].

(** What one call of [process_file] can do to the counters: advance exactly
    one of them, or leave them alone when an exception passes through. *)
Inductive file_step (st st' : St) : result bool -> Prop :=
| step_outcome o b :
    self st' = record_outcome o (self st) -> file_step st st' (Ret b)
| step_escape e :
    self st' = self st -> file_step st st' (Raise e).

(** [Path.exists] does not raise. *)
Definition exists_never_raises : Prop :=
  forall w p, exists b : bool, path_exists w p = Ret b.

(** The engine only ever fails with exceptions that derive from
    [Exception]. *)
Definition engine_raises_only_Exception : Prop :=
  forall w g audio output language beam_size vad_filter w' e,
    transcribe_to_lrc w g audio output language beam_size vad_filter = (w', Raise e) ->
    isinstance_Exception e = true.

(** The command line after [argparse]. *)
Record Args : Type := mkArgs {
  arg_input : option string;
  arg_batch : option string;
  arg_output : option string;
  arg_model : string;
  arg_language : option string;
  arg_beam_size : Z;
  arg_device : string;
  arg_compute_type : string;
  arg_vad_filter : bool;
  arg_no_recursive : bool;
  arg_force : bool
}.

Definition env_print (l : event) (env : Env) : Env :=
  mkEnv (env_world env) (env_trace env ++ [l]).

(** Running a method of the object [b] inside the process. *)
Definition call_method {A} (b : BatchProcessor) (m : M St A) (env : Env)
  : BatchProcessor * Env * result A :=
  let (st, r) := m (mkSt b (env_world env) (env_trace env)) in
  (self st, mkEnv (world st) (trace st), r).

(** The batch branch of [main.main] ([elif args.batch:]), for a directory
    argument [batch]; the value is what [main] returns. *)
Definition main_batch (args : Args) (batch : string) (env : Env)
  : Env * result (option Z) :=
  if negb (os_path_isdir (env_world env) batch)
  then (env_print (MainError batch) env, Ret (Some 1%Z))
  else
    match BatchProcessor_init (arg_model args) (arg_device args)
                              (arg_compute_type args) env with
    | (env1, Raise e) => (env1, Raise e)
    | (env1, Ret processor) =>
        match call_method processor
                (process_directory batch (negb (arg_no_recursive args))
                   (arg_language args) (arg_beam_size args)
                   (arg_vad_filter args) (negb (arg_force args))) env1 with
        | (_, env2, Ret _) => (env2, Ret (Some 0%Z))
        | (_, env2, Raise e) =>
            if isinstance_Exception e
            then (env_print (MainError (exn_msg e)) env2, Ret (Some 1%Z))
            else (env2, Raise e)
        end
    end.

(** The single-file branch of [main.main] ([if args.input:]). *)
Definition main_single (args : Args) (input : string) (env : Env)
  : Env * result (option Z) :=
  if negb (os_path_exists (env_world env) input)
  then (env_print (MainError input) env, Ret (Some 1%Z))
  else if negb (is_audio_file (snd (os_path.splitext input)))
  then (env_print (MainError input) env, Ret (Some 1%Z))
  else
    let (w1, g) := generator_new (env_world env) (arg_model args)
                     (arg_device args) (arg_compute_type args) in
    match g with
    | Raise e => (mkEnv w1 (env_trace env), Raise e)
    | Ret generator =>
        let (w2, r) := transcribe_to_lrc w1 generator input (arg_output args)
                         (arg_language args) (arg_beam_size args)
                         (arg_vad_filter args) in
        let env2 := mkEnv w2 (env_trace env
                                ++ [Transcribe input (arg_output args)]) in
        match r with
        | Ret output_file => (env_print (MainSuccess output_file) env2, Ret (Some 0%Z))
        | Raise e =>
            if isinstance_Exception e
            then (env_print (MainError (exn_msg e)) env2, Ret (Some 1%Z))
            else (env2, Raise e)
        end
    end.

(** [main.main]: the value returned, [None] when neither branch is taken. *)
Definition main (args : Args) (env : Env) : Env * result (option Z) :=
  if truthy (arg_input args)
  then main_single args (match arg_input args with Some i => i | None => "" end) env
  else if truthy (arg_batch args)
  then main_batch args (match arg_batch args with Some b => b | None => "" end) env
  else (env, Ret None).

(** [sys.exit(main())]: the exit status of the process. *)
Definition exit_status (r : option Z) : Z :=
  match r with
  | Some z => z
  | None => 0%Z
  end.

End Batch.

Arguments Env World : clear implicits.
Arguments St World : clear implicits.
Arguments step_outcome {World st st'} o b _.
Arguments step_escape {World st st'} e _.

(** ** The rest of the program: output directories, the destination of a
       task, the second entry point *)

(** [os.makedirs]. *)
Class HostDirs (World : Type) : Type := {
  os_makedirs : World -> string -> World * result unit
}.

(** The calls of the engine in a trace, and their number. *)
Definition is_transcribe (e : event) : bool :=
  match e with
  | Transcribe _ _ => true
  | _ => false
  end.

Definition engine_calls (t : list event) : nat :=
  List.length (filter is_transcribe t).

(** The lines that report a failed file, and their number. *)
Definition is_failure_line (e : event) : bool :=
  match e with
  | ConvertFailed _ => true
  | _ => false
  end.

Definition failure_lines (t : list event) : nat :=
  List.length (filter is_failure_line t).

(** What [file_path.with_suffix('.lrc')] is for a file name with a suffix. *)
Definition lrc_of (file_path : pathlib.Path) : pathlib.Path :=
  pathlib.mkPath (pathlib.root file_path)
    (removelast (pathlib.parts file_path) ++ [pathlib.stem file_path ++ ".lrc"]).

(** [sys.exit(1)] raises [SystemExit] with the code as its argument. *)
Definition sys_exit_1 : exn := mkExn SystemExit "1".

(** The command line of [batch_process.main] after [argparse]. *)
Record BatchArgs : Type := mkBatchArgs {
  barg_directory : string;
  barg_model : string;
  barg_language : option string;
  barg_beam_size : Z;
  barg_device : string;
  barg_compute_type : string;
  barg_vad_filter : bool;
  barg_no_recursive : bool;
  barg_force : bool
}.

(** The options of [main.py] in batch mode, as [batch_process.py] reads
    them. *)
Definition batch_args_of (args : Args) (directory : string) : BatchArgs :=
  mkBatchArgs directory (arg_model args) (arg_language args) (arg_beam_size args)
              (arg_device args) (arg_compute_type args) (arg_vad_filter args)
              (arg_no_recursive args) (arg_force args).

Section Entry.

Context {World : Type} `{Host World} `{HostDirs World}.

(** [utils.ensure_output_directory]. *)
Definition ensure_output_directory (output_path : string) (w : World)
  : World * result unit :=
  let output_dir := os_path.dirname output_path in
  if negb (String.eqb output_dir "") && negb (os_path_exists w output_dir)
  then os_makedirs w output_dir
  else (w, Ret tt).

(** The test of [find_audio_files] on a path that [glob] yields. *)
Definition is_audio_path (w : World) (file_path : pathlib.Path) : bool :=
  match path_is_file w file_path with
  | Ret is_file => is_file && is_audio_file (lower (pathlib.suffix file_path))
  | Raise _ => false
  end.

(** The exception that ends the loop of [find_audio_files] over a listing:
    the first one that [is_file] raises, if any. *)
Fixpoint first_is_file_error (w : World) (files : list pathlib.Path) : option exn :=
  match files with
  | [] => None
  | file_path :: rest =>
      match path_is_file w file_path with
      | Ret _ => first_is_file_error w rest
      | Raise e => Some e
      end
  end.

(** [batch_process.main]: it returns [None], or leaves through
    [sys.exit(1)]; nothing is caught. *)
Definition batch_process_main (args : BatchArgs) (env : Env World)
  : Env World * result unit :=
  if negb (os_path_exists (env_world env) (barg_directory args))
  then (env_print (MainError (barg_directory args)) env, Raise sys_exit_1)
  else if negb (os_path_isdir (env_world env) (barg_directory args))
  then (env_print (MainError (barg_directory args)) env, Raise sys_exit_1)
  else
    match BatchProcessor_init (barg_model args) (barg_device args)
                              (barg_compute_type args) env with
    | (env1, Raise e) => (env1, Raise e)
    | (env1, Ret processor) =>
        match call_method processor
                (process_directory (barg_directory args)
                   (negb (barg_no_recursive args)) (barg_language args)
                   (barg_beam_size args) (barg_vad_filter args)
                   (negb (barg_force args))) env1 with
        | (_, env2, r) => (env2, r)
        end
    end.

End Entry.

(** ** A small concrete world

    A file system given by the list of its files, a speech engine that
    writes the output file, except on the audio files it is told to fail
    on, directories that may not be read, whose content a listing leaves
    out, and paths on which the operating system reports an input/output
    error, which [exists], [is_file] and the listing raise. *)

Module Demo.

Fixpoint parts_eqb (l m : list string) : bool :=
  match l, m with
  | [], [] => true
  | x :: l', y :: m' => String.eqb x y && parts_eqb l' m'
  | _, _ => false
  end.

Definition path_eqb (p q : pathlib.Path) : bool :=
  String.eqb (pathlib.root p) (pathlib.root q)
  && parts_eqb (pathlib.parts p) (pathlib.parts q).

(** [failing] gives, for an audio file the engine cannot process, the name
    of the class of the exception, a class that derives from [Exception],
    and its message. *)
Record World : Type := mkWorld {
  files : list pathlib.Path;
  failing : list (string * (string * string));
  unreadable : list pathlib.Path;
  broken : list pathlib.Path
}.

Fixpoint is_prefix (d l : list string) : bool :=
  match d, l with
  | [], _ => true
  | x :: d', y :: l' => String.eqb x y && is_prefix d' l'
  | _ :: _, [] => false
  end.

(** Is [p] a file below the directory [d]: anywhere below, or directly. *)
Definition below (deep : bool) (d p : pathlib.Path) : bool :=
  String.eqb (pathlib.root d) (pathlib.root p)
  && is_prefix (pathlib.parts d) (pathlib.parts p)
  && if deep
     then (List.length (pathlib.parts d) <? List.length (pathlib.parts p))%nat
     else (List.length (pathlib.parts p) =? S (List.length (pathlib.parts d)))%nat.

Definition lookup_failure (a : string) (l : list (string * (string * string)))
  : option exn :=
  option_map (fun x => mkExn (ExceptionClass (fst (snd x))) (snd (snd x)))
             (find (fun x => String.eqb (fst x) a) l).

Definition io_error : exn :=
  mkExn (ExceptionClass "OSError") "Input/output error".

(** Is [p] inside a directory that may not be read? *)
Definition hidden (w : World) (p : pathlib.Path) : bool :=
  existsb (fun u => below true u p) (unreadable w).

#[global] Instance host : Host World := {
  path_exists w p :=
    if existsb (path_eqb p) (broken w) then Raise io_error
    else Ret (existsb (path_eqb p) (files w));
  path_is_file w p :=
    if existsb (path_eqb p) (broken w) then Raise io_error
    else Ret (existsb (path_eqb p) (files w));
  path_resolve _ s := pathlib.parse s;
  path_glob w d pattern :=
    if existsb (path_eqb d) (broken w) then ([], Some io_error)
    else (filter (fun p => below (String.eqb pattern "**/*") d p
                           && negb (hidden w p)) (files w), None);
  os_path_exists w s :=
    existsb (fun p => path_eqb (pathlib.parse s) p
                      || below true (pathlib.parse s) p) (files w);
  os_path_isdir w s := existsb (below true (pathlib.parse s)) (files w);
  generator_new w m d c := (w, Ret (mkGenerator m d c));
  transcribe_to_lrc w _ audio output _ _ _ :=
    match lookup_failure audio (failing w) with
    | Some e => (w, Raise e)
    | None =>
        let out := match output with
                   | Some o => o
                   | None => get_output_filename audio
                   end in
        (mkWorld (files w ++ [pathlib.parse out]) (failing w) (unreadable w)
                 (broken w),
         Ret out)
    end
}.

Definition song1 := pathlib.parse "/music/a.mp3".
Definition song2 := pathlib.parse "/music/b.wav".
Definition song3 := pathlib.parse "/music/live/c.FLAC".
Definition notes := pathlib.parse "/music/notes.txt".

Definition RuntimeError (msg : string) : string * string :=
  ("RuntimeError", msg).

(** Three audio files and a text file; the engine fails on the second. *)
Definition world_fail_second : World :=
  mkWorld [song1; song2; song3; notes]
          [("/music/b.wav", RuntimeError "cannot decode")] [] [].

(** The same files; the engine fails on all three. *)
Definition world_fail_all : World :=
  mkWorld [song1; song2; song3; notes]
          [("/music/a.mp3", RuntimeError "cannot decode");
           ("/music/b.wav", RuntimeError "cannot decode");
           ("/music/live/c.FLAC", RuntimeError "cannot decode")] [] [].

Definition batch_args (dir : string) : Args :=
  mkArgs None (Some dir) None "base" None 5 "cpu" "int8" false false false.

(** The same with [--force]. *)
Definition forced_batch_args (dir : string) : Args :=
  mkArgs None (Some dir) None "base" None 5 "cpu" "int8" false false true.

Definition fresh (w : World) : St World :=
  mkSt (mkProcessor (mkGenerator "base" "cpu" "int8") 0 0 0) w [].

(** Two audio files, one of them with its [.lrc] file already there; the
    engine works. *)
Definition world_one_done : World :=
  mkWorld [song1; song2; pathlib.parse "/music/a.lrc"] [] [] [].

(** Two audio files and an engine that works. *)
Definition world_two_songs : World := mkWorld [song1; song2] [] [] [].

(** Two recordings of one title in one directory. *)
Definition take1 := pathlib.parse "/music/a.mp3".
Definition take2 := pathlib.parse "/music/a.wav".
Definition world_same_stem : World := mkWorld [take1; take2] [] [] [].

(** An audio file in a directory that may not be read: the listing is
    empty. *)
Definition world_unreadable : World :=
  mkWorld [song1] [] [pathlib.parse "/music"] [].

(** Three audio files and an engine that works. *)
Definition world_three_songs : World := mkWorld [song1; song2; song3] [] [] [].

(** Two audio files; the second one cannot be examined. *)
Definition world_broken_file : World := mkWorld [song1; song2] [] [] [song2].


(** Two audio files with their [.lrc] files in place. *)
Definition world_all_done : World :=
  mkWorld [song1; song2; pathlib.parse "/music/a.lrc"; pathlib.parse "/music/b.lrc"]
          [] [] [].

(** The same host, with a user who interrupts the transcription of
    [/music/b.wav]. *)
Definition host_interrupted : Host World := {|
  path_exists := @path_exists World host;
  path_is_file := @path_is_file World host;
  path_resolve := @path_resolve World host;
  path_glob := @path_glob World host;
  os_path_exists := @os_path_exists World host;
  os_path_isdir := @os_path_isdir World host;
  generator_new := @generator_new World host;
  transcribe_to_lrc w g audio output language beam_size vad_filter :=
    if String.eqb audio "/music/b.wav"
    then (w, Raise (mkExn KeyboardInterrupt ""))
    else @transcribe_to_lrc World host w g audio output language beam_size vad_filter
|}.

(** In this world no directory can be created. *)
#[global] Instance host_dirs : HostDirs World := {
  os_makedirs w d :=
    (w, Raise (mkExn (ExceptionClass "PermissionError") "Permission denied"))
}.

Definition single_args (input : string) : Args :=
  mkArgs (Some input) None None "base" None 5 "cpu" "int8" false false false.

Definition batch_process_args (dir : string) : BatchArgs :=
  mkBatchArgs dir "base" None 5 "cpu" "int8" false false false.

End Demo.

(** * Properties *)

(** ** Checking a property of every integer below a bound *)

Lemma forall_below (P : Z -> bool) (n : Z) :
  forallb P (map Z.of_nat (seq 0 (Z.to_nat n))) = true ->
  forall z, (0 <= z < n)%Z -> P z = true.
Proof.
  intros Hall z Hz.
  rewrite forallb_forall in Hall. apply Hall.
  apply in_map_iff. exists (Z.to_nat z). split.
  - lia.
  - apply in_seq. lia.
Qed.

Lemma digit_char_ok d :
  (0 <= d < 10)%Z -> is_digit (digit_char d) = true /\ digit_value (digit_char d) = d.
Proof.
  intros Hd.
  assert (Hb : (is_digit (digit_char d) && (digit_value (digit_char d) =? d)%Z) = true).
  { apply (forall_below (fun d => is_digit (digit_char d) && (digit_value (digit_char d) =? d)%Z) 10).
    - vm_compute. reflexivity.
    - exact Hd. }
  apply andb_true_iff in Hb. destruct Hb as [H1 H2]. split; [exact H1 | lia].
Qed.

Lemma format_02d_two_digits m :
  (0 <= m < 100)%Z ->
  PyStr.format_02d m = String (digit_char (m / 10)) (String (digit_char (m mod 10)) "").
Proof.
  intros Hm. apply String.eqb_eq.
  apply (forall_below (fun m => String.eqb (PyStr.format_02d m) (String (digit_char (m / 10)) (String (digit_char (m mod 10)) ""))) 100).
  - vm_compute. reflexivity.
  - exact Hm.
Qed.

Lemma render_hundredths_shape h :
  (0 <= h <= 6000)%Z ->
  render_hundredths h =
  String (digit_char (h / 1000)) (String (digit_char (h / 100 mod 10))
    (String "." (String (digit_char (h / 10 mod 10)) (String (digit_char (h mod 10)) "")))).
Proof.
  intros Hh. apply String.eqb_eq.
  apply (forall_below (fun h => String.eqb (render_hundredths h)
     (String (digit_char (h / 1000)) (String (digit_char (h / 100 mod 10))
    (String "." (String (digit_char (h / 10 mod 10)) (String (digit_char (h mod 10)) "")))))) 6001).
  - vm_compute. reflexivity.
  - lia.
Qed.

(** ** Rounding and the two parts of a number of seconds *)

Lemma round_half_even_bounds q :
  (Qfloor q <= PyStr.round_half_even q <= Qfloor q + 1)%Z.
Proof.
  unfold PyStr.round_half_even.
  destruct (q - inject_Z (Qfloor q) ?= 1 # 2)%Q; [destruct (Z.even (Qfloor q)) | | ]; lia.
Qed.

Lemma round_half_even_close q :
  (Qabs (inject_Z (PyStr.round_half_even q) - q) <= 1 # 2)%Q.
Proof.
  pose proof (Qfloor_le q) as A.
  pose proof (Qlt_floor q) as B.
  rewrite inject_Z_plus in B. change (inject_Z 1) with 1%Q in B.
  apply Qabs_Qle_condition.
  unfold PyStr.round_half_even.
  destruct (Qcompare_spec (q - inject_Z (Qfloor q))%Q (1 # 2)%Q) as [E | L | G].
  - destruct (Z.even (Qfloor q)).
    + lra.
    + rewrite inject_Z_plus. change (inject_Z 1) with 1%Q. lra.
  - lra.
  - rewrite inject_Z_plus. change (inject_Z 1) with 1%Q. lra.
Qed.

Lemma floordiv60_spec s :
  (inject_Z 60 * inject_Z (floordiv60 s) <= s < inject_Z 60 * inject_Z (floordiv60 s) + 60)%Q.
Proof.
  unfold floordiv60.
  pose proof (Qfloor_le (s / inject_Z 60)) as A.
  pose proof (Qlt_floor (s / inject_Z 60)) as B.
  rewrite inject_Z_plus in B. change (inject_Z 1) with 1%Q in B.
  assert (E : (s / inject_Z 60 == s * (1 # 60))%Q) by reflexivity.
  set (x := (s / inject_Z 60)%Q) in *. clearbody x.
  change (inject_Z 60) with 60%Q.
  split; lra.
Qed.

Lemma mod60_range s : (0 <= mod60 s < 60)%Q.
Proof.
  unfold mod60. pose proof (floordiv60_spec s) as [A B]. split; lra.
Qed.

Lemma mod60_decompose s :
  (s == inject_Z 60 * inject_Z (floordiv60 s) + mod60 s)%Q.
Proof. unfold mod60. lra. Qed.


Lemma hundredths_range s :
  (0 <= PyStr.round_half_even (mod60 s * inject_Z 100) <= 6000)%Z.
Proof.
  pose proof (mod60_range s) as [A B].
  pose proof (round_half_even_bounds (mod60 s * inject_Z 100)) as [C D].
  set (x := (mod60 s * inject_Z 100)%Q) in *.
  assert (E : (x == mod60 s * 100)%Q) by reflexivity.
  assert (F0 : (0 <= Qfloor x)%Z).
  { change 0%Z with (Qfloor 0). apply Qfloor_resp_le. lra. }
  assert (F1 : (Qfloor x < 6000)%Z).
  { rewrite Zlt_Qlt. pose proof (Qfloor_le x). change (inject_Z 6000) with 6000%Q. lra. }
  lia.
Qed.

Lemma format_05_2f_mod60 s :
  PyStr.format_05_2f (mod60 s)
  = render_hundredths (PyStr.round_half_even (mod60 s * inject_Z 100)).
Proof.
  unfold PyStr.format_05_2f, render_hundredths.
  pose proof (hundredths_range s) as Hh.
  rewrite Z.abs_eq by lia.
  destruct (Qcompare_spec (mod60 s) 0) as [E | L | G]; try reflexivity.
  pose proof (mod60_range s). lra.
Qed.

(** The timestamp of a number of seconds below one hour, digit by digit. *)
Lemma format_timestamp_lrc_shape s :
  (0 <= s)%Q -> (s < 3600)%Q ->
  let m := floordiv60 s in
  let h := PyStr.round_half_even (mod60 s * inject_Z 100) in
  format_timestamp_lrc s =
  string_of_list_ascii
    [ "["%char; digit_char (m / 10); digit_char (m mod 10); ":"%char;
      digit_char (h / 1000); digit_char (h / 100 mod 10); "."%char;
      digit_char (h / 10 mod 10); digit_char (h mod 10); "]"%char ].
Proof.
  intros H0 H1 m h.
  pose proof (floordiv60_spec s) as [A B].
  assert (Hm : (0 <= m < 60)%Z).
  { fold m in A, B. change (inject_Z 60) with 60%Q in A, B. split.
    - apply Z.lt_succ_r. rewrite Zlt_Qlt. unfold Z.succ.
      rewrite inject_Z_plus. change (inject_Z 0) with 0%Q.
      change (inject_Z 1) with 1%Q. lra.
    - rewrite Zlt_Qlt. change (inject_Z 60) with 60%Q. lra. }
  unfold format_timestamp_lrc. fold m.
  rewrite format_05_2f_mod60. fold h.
  rewrite format_02d_two_digits by lia.
  rewrite render_hundredths_shape by (apply hundredths_range).
  reflexivity.
Qed.

Lemma timestamp_digits_of_shape m1 m2 s1 s2 f1 f2 :
  (0 <= m1 < 10)%Z -> (0 <= m2 < 10)%Z -> (0 <= s1 < 10)%Z ->
  (0 <= s2 < 10)%Z -> (0 <= f1 < 10)%Z -> (0 <= f2 < 10)%Z ->
  timestamp_digits
    (string_of_list_ascii
       [ "["%char; digit_char m1; digit_char m2; ":"%char;
         digit_char s1; digit_char s2; "."%char;
         digit_char f1; digit_char f2; "]"%char ])
  = Some (digit_char m1, digit_char m2, digit_char s1, digit_char s2,
          digit_char f1, digit_char f2).
Proof.
  intros H1 H2 H3 H4 H5 H6.
  unfold timestamp_digits.
  rewrite list_ascii_of_string_of_list_ascii.
  apply digit_char_ok in H1, H2, H3, H4, H5, H6.
  destruct H1 as [-> _], H2 as [-> _], H3 as [-> _], H4 as [-> _],
           H5 as [-> _], H6 as [-> _].
  reflexivity.
Qed.


(** ** Strings: [rfind], [take] and [drop] *)

Lemma length_append (a b : string) :
  String.length (a ++ b) = String.length a + String.length b.
Proof. induction a as [ | c a IH]; cbn; [ | rewrite IH ]; reflexivity. Qed.

Lemma rfind_from_append c a b i last :
  rfind_from c (a ++ b) i last
  = rfind_from c b (i + Z.of_nat (String.length a)) (rfind_from c a i last).
Proof.
  revert i last. induction a as [ | d a IH]; intros i last; cbn [append rfind_from String.length].
  - f_equal. lia.
  - rewrite IH. f_equal. lia.
Qed.

Lemma rfind_from_absent c s i last :
  contains_char c s = false -> rfind_from c s i last = last.
Proof.
  revert i last. induction s as [ | d s IH]; intros i last Hc; cbn in *.
  - reflexivity.
  - apply orb_false_iff in Hc. destruct Hc as [Hd Hs]. rewrite Hd. now apply IH.
Qed.

(** The index found is [last] or an index of the part scanned. *)
Lemma rfind_from_range c s i last :
  rfind_from c s i last = last
  \/ (i <= rfind_from c s i last < i + Z.of_nat (String.length s))%Z.
Proof.
  revert i last. induction s as [ | d s IH]; intros i last; cbn [rfind_from String.length].
  - now left.
  - destruct (IH (i + 1)%Z (if Ascii.eqb d c then i else last)) as [E | R].
    + rewrite E. destruct (Ascii.eqb d c); [right; lia | now left].
    + right. lia.
Qed.

Lemma take_drop n s : take n s ++ drop n s = s.
Proof.
  revert s. induction n as [ | n IH]; intros s; destruct s as [ | c s]; cbn; try reflexivity.
  now rewrite IH.
Qed.

Lemma length_drop n s : String.length (drop n s) = String.length s - n.
Proof.
  revert s. induction n as [ | n IH]; intros s; destruct s as [ | c s]; cbn; try reflexivity.
  apply IH.
Qed.

Lemma length_take n s : n <= String.length s -> String.length (take n s) = n.
Proof.
  revert s. induction n as [ | n IH]; intros s Hn; destruct s as [ | c s]; cbn in *; try lia.
  rewrite IH; lia.
Qed.

Lemma take_append a b : take (String.length a) (a ++ b) = a.
Proof. induction a as [ | c a IH]; cbn; [ destruct b | rewrite IH ]; reflexivity. Qed.

Lemma drop_append a b : drop (String.length a) (a ++ b) = b.
Proof. induction a as [ | c a IH]; cbn; [ destruct b | ]; try reflexivity. exact IH. Qed.

(** ** [pathlib]: stem and suffix *)

Lemma name_suffix_index n :
  pathlib.name_suffix n <> "" ->
  (0 < rfind "." n < Z.of_nat (String.length n) - 1)%Z
  /\ pathlib.name_suffix n = drop (Z.to_nat (rfind "." n)) n.
Proof.
  unfold pathlib.name_suffix.
  destruct ((0 <? rfind "." n)%Z && (rfind "." n <? Z.of_nat (String.length n) - 1)%Z) eqn:E.
  - intros _. apply andb_true_iff in E. destruct E as [E1 E2]. split; [lia | reflexivity].
  - intros Hne. now contradiction Hne.
Qed.

Lemma name_stem_suffix n : pathlib.name_stem n ++ pathlib.name_suffix n = n.
Proof.
  unfold pathlib.name_stem.
  destruct (string_dec (pathlib.name_suffix n) "") as [E | Hne].
  - rewrite E. cbn [String.length]. rewrite Nat.sub_0_r.
    rewrite <- (take_drop (String.length n) n) at 3.
    f_equal. generalize (length_drop (String.length n) n). rewrite Nat.sub_diag.
    destruct (drop (String.length n) n); [reflexivity | discriminate].
  - destruct (name_suffix_index n Hne) as [Hi ->].
    rewrite length_drop.
    replace (String.length n - (String.length n - Z.to_nat (rfind "." n)))
      with (Z.to_nat (rfind "." n)) by lia.
    apply take_drop.
Qed.

Lemma name_stem_nonempty n :
  pathlib.name_suffix n <> "" -> 0 < String.length (pathlib.name_stem n).
Proof.
  intros Hne. unfold pathlib.name_stem.
  destruct (name_suffix_index n Hne) as [Hi ->].
  rewrite length_drop, length_take; lia.
Qed.

Lemma name_suffix_lrc stem :
  0 < String.length stem ->
  pathlib.name_suffix (stem ++ ".lrc") = ".lrc"
  /\ pathlib.name_stem (stem ++ ".lrc") = stem.
Proof.
  intros Hpos.
  assert (Hs : pathlib.name_suffix (stem ++ ".lrc") = ".lrc").
  { unfold pathlib.name_suffix, rfind. rewrite rfind_from_append, length_append.
    cbn [rfind_from String.length Ascii.eqb Bool.eqb].
    replace ((0 <? 0 + Z.of_nat (String.length stem))%Z
             && (0 + Z.of_nat (String.length stem) <? Z.of_nat (String.length stem + 4) - 1)%Z)
      with true by (symmetry; apply andb_true_iff; split; apply Z.ltb_lt; lia).
    replace (Z.to_nat (0 + Z.of_nat (String.length stem))) with (String.length stem) by lia.
    apply drop_append. }
  split; [exact Hs | ].
  unfold pathlib.name_stem. rewrite Hs, length_append. cbn [String.length].
  replace (String.length stem + 4 - 4) with (String.length stem) by lia.
  apply take_append.
Qed.

Lemma with_suffix_lrc p :
  pathlib.suffix p <> "" ->
  pathlib.with_suffix p ".lrc"
  = Ret (pathlib.mkPath (pathlib.root p)
           (removelast (pathlib.parts p) ++ [pathlib.stem p ++ ".lrc"])).
Proof.
  intros Hne. unfold pathlib.with_suffix. cbn [contains_char Ascii.eqb Bool.eqb orb].
  cbn [String.eqb startswith prefix negb andb orb Ascii.eqb Bool.eqb].
  destruct (String.eqb (pathlib.name p) "") eqn:En.
  - apply String.eqb_eq in En. unfold pathlib.suffix in Hne. rewrite En in Hne.
    now contradiction Hne.
  - destruct (String.eqb (pathlib.suffix p) "") eqn:Es.
    + apply String.eqb_eq in Es. contradiction.
    + reflexivity.
Qed.

(** ** [os.path.basename] and [get_output_filename] *)

Lemma basename_join d n :
  contains_char "/" n = false -> os_path.basename (d ++ "/" ++ n) = n.
Proof.
  intros Hn. unfold os_path.basename, rfind.
  rewrite rfind_from_append. cbn [append rfind_from Ascii.eqb Bool.eqb].
  rewrite rfind_from_absent by exact Hn.
  replace (Z.to_nat (0 + Z.of_nat (String.length d) + 1)) with (String.length (d ++ "/")).
  - change (d ++ String "/" n) with (d ++ ("/" ++ n)).
    replace (d ++ ("/" ++ n)) with ((d ++ "/") ++ n).
    + apply drop_append.
    + clear. induction d as [ | c d IH]; cbn; [ | rewrite IH ]; reflexivity.
  - rewrite length_append. cbn. lia.
Qed.

Lemma basename_plain n :
  contains_char "/" n = false -> os_path.basename n = n.
Proof.
  intros Hn. unfold os_path.basename, rfind. rewrite rfind_from_absent by exact Hn.
  reflexivity.
Qed.

Lemma get_output_filename_drops_directory d n :
  contains_char "/" n = false ->
  get_output_filename (d ++ "/" ++ n) = get_output_filename n.
Proof.
  intros Hn. unfold get_output_filename.
  now rewrite basename_join, basename_plain.
Qed.

(** ** The batch walker *)

Section BatchFacts.

Context {World : Type} `{Host World}.

(** *** One task *)

Lemma process_file_skip (st : St World) audio_path lrc_path language beam_size vad_filter skip_existing :
  skip_check skip_existing (world st) lrc_path = Ret true ->
  process_file audio_path lrc_path language beam_size vad_filter skip_existing st
  = (after_skip st lrc_path, Ret false).
Proof.
  intros Hskip.
  unfold process_file, bind, ask. rewrite Hskip. reflexivity.
Qed.

(** What [exists] raises leaves [process_file] at once: the call stands
    before the [try]. *)
Lemma process_file_exists_raises (st : St World) audio_path lrc_path language
    beam_size vad_filter skip_existing e :
  skip_check skip_existing (world st) lrc_path = Raise e ->
  process_file audio_path lrc_path language beam_size vad_filter skip_existing st
  = (st, Raise e).
Proof.
  intros Hskip.
  unfold process_file, bind, ask. rewrite Hskip. reflexivity.
Qed.

Lemma process_file_success (st : St World) audio_path lrc_path language beam_size
    vad_filter skip_existing w out :
  skip_check skip_existing (world st) lrc_path = Ret false ->
  transcribe_to_lrc (world st) (generator (self st)) (pathlib.str audio_path)
    (Some (pathlib.str lrc_path)) language beam_size vad_filter = (w, Ret out) ->
  process_file audio_path lrc_path language beam_size vad_filter skip_existing st
  = (mkSt (record_outcome Succeeded (self st)) w
          (trace st ++ attempt_trace audio_path lrc_path ++ [Converted audio_path]),
     Ret true).
Proof.
  intros Hskip Hrun.
  unfold process_file, bind at 1, ask. rewrite Hskip.
  unfold try_except_Exception, bind, print, modify, call_transcribe. cbn.
  rewrite Hrun. cbn. rewrite <- !app_assoc. reflexivity.
Qed.

Lemma process_file_failure (st : St World) audio_path lrc_path language beam_size
    vad_filter skip_existing w e :
  skip_check skip_existing (world st) lrc_path = Ret false ->
  transcribe_to_lrc (world st) (generator (self st)) (pathlib.str audio_path)
    (Some (pathlib.str lrc_path)) language beam_size vad_filter = (w, Raise e) ->
  isinstance_Exception e = true ->
  process_file audio_path lrc_path language beam_size vad_filter skip_existing st
  = (mkSt (record_outcome Failed (self st)) w
          (trace st ++ attempt_trace audio_path lrc_path
             ++ [ConvertFailed audio_path; ErrorDetail (exn_msg e)]),
     Ret false).
Proof.
  intros Hskip Hrun He.
  unfold process_file, bind at 1, ask. rewrite Hskip.
  unfold try_except_Exception, bind, print, modify, call_transcribe. cbn.
  rewrite Hrun. cbn. rewrite He. cbn. rewrite <- !app_assoc. reflexivity.
Qed.

Lemma process_file_escape (st : St World) audio_path lrc_path language beam_size
    vad_filter skip_existing w e :
  skip_check skip_existing (world st) lrc_path = Ret false ->
  transcribe_to_lrc (world st) (generator (self st)) (pathlib.str audio_path)
    (Some (pathlib.str lrc_path)) language beam_size vad_filter = (w, Raise e) ->
  isinstance_Exception e = false ->
  process_file audio_path lrc_path language beam_size vad_filter skip_existing st
  = (mkSt (self st) w (trace st ++ attempt_trace audio_path lrc_path), Raise e).
Proof.
  intros Hskip Hrun He.
  unfold process_file, bind at 1, ask. rewrite Hskip.
  unfold try_except_Exception, bind, print, modify, call_transcribe. cbn.
  rewrite Hrun. cbn. rewrite He. cbn. rewrite <- !app_assoc. reflexivity.
Qed.

Lemma process_file_step (st : St World) audio_path lrc_path language beam_size
    vad_filter skip_existing :
  file_step st
    (fst (process_file audio_path lrc_path language beam_size vad_filter skip_existing st))
    (snd (process_file audio_path lrc_path language beam_size vad_filter skip_existing st)).
Proof.
  destruct (skip_check skip_existing (world st) lrc_path) as [[ | ] | e0] eqn:Hskip.
  - rewrite process_file_skip by exact Hskip. now apply step_outcome with Skipped.
  - destruct (transcribe_to_lrc (world st) (generator (self st))
                (pathlib.str audio_path) (Some (pathlib.str lrc_path))
                language beam_size vad_filter) as [w [out | e]] eqn:Hrun.
    + erewrite process_file_success by eassumption. now apply step_outcome with Succeeded.
    + destruct (isinstance_Exception e) eqn:He.
      * erewrite process_file_failure by eassumption. now apply step_outcome with Failed.
      * erewrite process_file_escape by eassumption. now apply step_escape.
  - erewrite process_file_exists_raises by exact Hskip. now apply step_escape.
Qed.


(** *** Discovery *)

Lemma collect_pure {A B} (f : A -> M (St World) (option B)) (l : list A) :
  (forall x st, fst (f x st) = st) ->
  forall st, fst (collect l f st) = st.
Proof.
  intros Hf. induction l as [ | x r IH]; intros st.
  - reflexivity.
  - cbn [collect]. unfold bind.
    specialize (Hf x st). destruct (f x st) as [st1 [o | e]]; cbn in Hf; subst st1.
    + specialize (IH st). destruct (collect r f st) as [st2 [ys | e]]; exact IH.
    + reflexivity.
Qed.

Lemma bind_pure {A B} (m : M (St World) A) (k : A -> M (St World) B) st :
  fst (m st) = st ->
  (forall a, fst (k a st) = st) ->
  fst (bind m k st) = st.
Proof.
  intros Hm Hk. unfold bind. destruct (m st) as [st1 [a | e]]; cbn [fst] in Hm; subst st1.
  - apply Hk.
  - reflexivity.
Qed.

Lemma find_audio_files_pure directory recursive (st : St World) :
  fst (find_audio_files directory recursive st) = st.
Proof.
  unfold find_audio_files.
  apply bind_pure; [reflexivity | intros directory'; cbv zeta].
  apply bind_pure; [reflexivity | intros listing].
  apply bind_pure.
  - apply collect_pure. intros x st0.
    apply bind_pure; [reflexivity | intros is_file].
    destruct (is_file && is_audio_file (lower (pathlib.suffix x))); [ | reflexivity ].
    apply bind_pure; [reflexivity | intros lrc_path; reflexivity].
  - intros audio_files. destruct (snd listing); reflexivity.
Qed.

Lemma find_audio_files_result directory recursive (st : St World) tasks :
  snd (find_audio_files directory recursive st) = Ret tasks ->
  find_audio_files directory recursive st = (st, Ret tasks).
Proof.
  intros Hfind. pose proof (find_audio_files_pure directory recursive st) as Hst.
  destruct (find_audio_files directory recursive st) as [st1 r].
  cbn in Hfind, Hst. now subst.
Qed.

(** *** The loop *)

Lemma process_loop_nil total language beam_size vad_filter skip_existing (st : St World) :
  process_loop total [] language beam_size vad_filter skip_existing st = (st, Ret tt).
Proof. reflexivity. Qed.

Lemma process_loop_cons total i audio_path lrc_path rest language beam_size
    vad_filter skip_existing (st : St World) :
  process_loop total ((i, (audio_path, lrc_path)) :: rest)
    language beam_size vad_filter skip_existing st
  = match process_file audio_path lrc_path language beam_size vad_filter
            skip_existing (announce st i total) with
    | (st1, Ret _) =>
        process_loop total rest language beam_size vad_filter skip_existing st1
    | (st1, Raise e) => (st1, Raise e)
    end.
Proof.
  unfold process_loop. cbn [for_each]. unfold bind at 1 2 3. unfold print, modify.
  fold (announce st i total).
  destruct (process_file audio_path lrc_path language beam_size vad_filter
              skip_existing (announce st i total)) as [st1 [b | e]]; reflexivity.
Qed.

Lemma total_count_record o b :
  total_count (record_outcome o b) = S (total_count b).
Proof. destruct o; unfold total_count; cbn; lia. Qed.

Lemma total_count_record_all outcomes b :
  total_count (record_all outcomes b) = total_count b + List.length outcomes.
Proof.
  revert b. induction outcomes as [ | o r IH]; intros b; cbn.
  - lia.
  - unfold record_all in IH. rewrite IH, total_count_record. lia.
Qed.

Lemma record_all_monotone outcomes b :
  processed_count b <= processed_count (record_all outcomes b)
  /\ skipped_count b <= skipped_count (record_all outcomes b)
  /\ error_count b <= error_count (record_all outcomes b).
Proof.
  revert b. induction outcomes as [ | o r IH]; intros b; cbn.
  - lia.
  - specialize (IH (record_outcome o b)). unfold record_all in *.
    destruct o; cbn in *; lia.
Qed.

Lemma process_loop_outcomes total tasks language beam_size vad_filter skip_existing :
  forall (st st' : St World),
    process_loop total tasks language beam_size vad_filter skip_existing st
    = (st', Ret tt) ->
    exists outcomes,
      List.length outcomes = List.length tasks
      /\ self st' = record_all outcomes (self st).
Proof.
  induction tasks as [ | [i [audio_path lrc_path]] rest IH]; intros st st' Hrun.
  - rewrite process_loop_nil in Hrun. inversion Hrun; subst. now exists [].
  - rewrite process_loop_cons in Hrun.
    pose proof (process_file_step (announce st i total) audio_path lrc_path
                  language beam_size vad_filter skip_existing) as Hstep.
    destruct (process_file audio_path lrc_path language beam_size vad_filter
                skip_existing (announce st i total)) as [st1 r].
    cbn [fst snd] in Hstep.
    destruct Hstep as [o b Hself | e Hself].
    + destruct (IH _ _ Hrun) as (outcomes & Hlen & Hfinal).
      exists (o :: outcomes). split.
      * cbn. now rewrite Hlen.
      * rewrite Hfinal, Hself. reflexivity.
    + discriminate Hrun.
Qed.

(** The test before the [try] returns when [exists] is not called or does
    not raise. *)
Lemma skip_check_returns skip_existing (w : World) lrc_path :
  skip_existing = false \/ exists_never_raises ->
  exists b : bool, skip_check skip_existing w lrc_path = Ret b.
Proof.
  unfold skip_check. intros [-> | Hex].
  - now exists false.
  - destruct skip_existing; [apply Hex | now exists false].
Qed.

Lemma process_loop_completes total tasks language beam_size vad_filter skip_existing :
  engine_raises_only_Exception ->
  skip_existing = false \/ exists_never_raises ->
  forall st : St World, exists st',
    process_loop total tasks language beam_size vad_filter skip_existing st
    = (st', Ret tt).
Proof.
  intros Honly Hex.
  induction tasks as [ | [i [audio_path lrc_path]] rest IH]; intros st.
  - exists st. reflexivity.
  - rewrite process_loop_cons.
    set (st0 := announce st i total).
    destruct (skip_check_returns skip_existing (world st0) lrc_path Hex)
      as [[ | ] Hskip].
    + rewrite process_file_skip by exact Hskip. apply IH.
    + destruct (transcribe_to_lrc (world st0) (generator (self st0))
                  (pathlib.str audio_path) (Some (pathlib.str lrc_path))
                  language beam_size vad_filter) as [w [out | e]] eqn:Hrun.
      * erewrite process_file_success by eassumption. apply IH.
      * erewrite process_file_failure; [apply IH | exact Hskip | exact Hrun | ].
        eapply Honly. exact Hrun.
Qed.

(** *** The whole walk *)

Lemma process_directory_empty directory recursive language beam_size vad_filter
    skip_existing (st : St World) :
  find_audio_files directory recursive st = (st, Ret []) ->
  process_directory directory recursive language beam_size vad_filter skip_existing st
  = (mkSt (self st) (world st) (trace st ++ [NoAudioFound directory]), Ret tt).
Proof.
  intros Hfind. unfold process_directory, bind at 1. rewrite Hfind. reflexivity.
Qed.

Lemma process_directory_walk directory recursive language beam_size vad_filter
    skip_existing (st : St World) tasks :
  find_audio_files directory recursive st = (st, Ret tasks) ->
  tasks <> [] ->
  process_directory directory recursive language beam_size vad_filter skip_existing st
  = match process_loop (List.length tasks) (enumerate tasks 1) language beam_size
            vad_filter skip_existing
            (header st (List.length tasks) recursive language) with
    | (st1, Ret _) =>
        (mkSt (self st1) (world st1)
              (trace st1 ++ statistics (self st1) (List.length tasks)), Ret tt)
    | (st1, Raise e) => (st1, Raise e)
    end.
Proof.
  intros Hfind Hne. unfold process_directory, bind at 1. rewrite Hfind.
  destruct tasks as [ | t rest]; [contradiction | ].
  set (ts := t :: rest).
  unfold bind, print, modify, header. cbn [self world trace].
  destruct (truthy language); cbn [self world trace ret];
    rewrite <- !app_assoc; cbn [app];
    match goal with
    | |- context [process_loop ?a ?b ?c ?d ?e ?f ?s] =>
        destruct (process_loop a b c d e f s) as [st1 [u | e0]]
    end; try reflexivity;
    unfold print_statistics, bind, print, modify, gets, statistics; cbn;
    rewrite <- !app_assoc; reflexivity.
Qed.

Lemma enumerate_length {A} (l : list A) start :
  List.length (enumerate l start) = List.length l.
Proof.
  revert start. induction l as [ | x r IH]; intros start; cbn; [ | rewrite IH ]; reflexivity.
Qed.

(** A walk that returns has recorded one outcome per discovered task, and,
    when there were tasks, has ended on the statistics. *)
Lemma process_directory_outcomes directory recursive language beam_size vad_filter
    skip_existing (st st' : St World) tasks :
  find_audio_files directory recursive st = (st, Ret tasks) ->
  process_directory directory recursive language beam_size vad_filter skip_existing st
  = (st', Ret tt) ->
  exists outcomes,
    List.length outcomes = List.length tasks
    /\ self st' = record_all outcomes (self st)
    /\ (tasks <> [] ->
        exists earlier,
          trace st' = (earlier ++ statistics (self st') (List.length tasks))%list).
Proof.
  intros Hfind Hrun.
  destruct tasks as [ | t rest].
  - rewrite (process_directory_empty _ _ _ _ _ _ _ Hfind) in Hrun.
    inversion Hrun; subst. exists []. repeat split. intros Hne. now contradiction Hne.
  - rewrite (process_directory_walk _ _ _ _ _ _ _ _ Hfind) in Hrun by discriminate.
    destruct (process_loop (List.length (t :: rest)) (enumerate (t :: rest) 1)
                language beam_size vad_filter skip_existing
                (header st (List.length (t :: rest)) recursive language))
      as [st1 [u | e]] eqn:Hloop; [ | discriminate Hrun ].
    destruct u. apply process_loop_outcomes in Hloop.
    destruct Hloop as (outcomes & Hlen & Hself).
    inversion Hrun; subst. exists outcomes. cbn [self trace].
    rewrite enumerate_length in Hlen. repeat split; try assumption.
    intros _. now exists (trace st1).
Qed.

(** With an engine that fails only with exceptions of class [Exception],
    and with [exists] not called or not raising, a walk whose discovery
    returned runs to its end. *)
Lemma process_directory_completes directory recursive language beam_size vad_filter
    skip_existing (st : St World) tasks :
  engine_raises_only_Exception ->
  skip_existing = false \/ exists_never_raises ->
  find_audio_files directory recursive st = (st, Ret tasks) ->
  exists st',
    process_directory directory recursive language beam_size vad_filter
      skip_existing st = (st', Ret tt).
Proof.
  intros Honly Hex Hfind.
  destruct tasks as [ | t rest].
  - rewrite (process_directory_empty _ _ _ _ _ _ _ Hfind). now eexists.
  - rewrite (process_directory_walk _ _ _ _ _ _ _ _ Hfind) by discriminate.
    destruct (process_loop_completes (List.length (t :: rest))
                (enumerate (t :: rest) 1) language beam_size vad_filter
                skip_existing Honly Hex
                (header st (List.length (t :: rest)) recursive language))
      as [st1 Hloop].
    rewrite Hloop. now eexists.
Qed.

(** *** Failure lines and the error counter *)

Lemma failure_lines_app (t u : list event) :
  failure_lines (t ++ u) = failure_lines t + failure_lines u.
Proof.
  unfold failure_lines. rewrite filter_app. apply length_app.
Qed.

(** Whatever one call of [process_file] does, it prints as many failure
    lines as it adds to [error_count]. *)
Lemma process_file_failures (st : St World) audio_path lrc_path language beam_size
    vad_filter skip_existing :
  failure_lines
    (trace (fst (process_file audio_path lrc_path language beam_size vad_filter
                   skip_existing st)))
  + error_count (self st)
  = failure_lines (trace st)
    + error_count
        (self (fst (process_file audio_path lrc_path language beam_size vad_filter
                      skip_existing st))).
Proof.
  destruct (skip_check skip_existing (world st) lrc_path) as [[ | ] | e0] eqn:Hskip.
  - rewrite process_file_skip by exact Hskip. unfold after_skip. cbn [fst self trace].
    rewrite failure_lines_app. cbn. lia.
  - destruct (transcribe_to_lrc (world st) (generator (self st))
                (pathlib.str audio_path) (Some (pathlib.str lrc_path))
                language beam_size vad_filter) as [w [out | e]] eqn:Hrun.
    + erewrite process_file_success by eassumption. cbn [fst self trace].
      rewrite !failure_lines_app. cbn. lia.
    + destruct (isinstance_Exception e) eqn:He.
      * erewrite process_file_failure by eassumption. cbn [fst self trace].
        rewrite !failure_lines_app. cbn. lia.
      * erewrite process_file_escape by eassumption. cbn [fst self trace].
        rewrite !failure_lines_app. cbn. lia.
  - erewrite process_file_exists_raises by exact Hskip. cbn [fst]. lia.
Qed.

Lemma process_loop_failures total tasks language beam_size vad_filter skip_existing :
  forall (st st' : St World) r,
    process_loop total tasks language beam_size vad_filter skip_existing st = (st', r) ->
    failure_lines (trace st') + error_count (self st)
    = failure_lines (trace st) + error_count (self st').
Proof.
  induction tasks as [ | [i [audio_path lrc_path]] rest IH]; intros st st' r Hrun.
  - rewrite process_loop_nil in Hrun. inversion Hrun; subst. reflexivity.
  - rewrite process_loop_cons in Hrun.
    pose proof (process_file_failures (announce st i total) audio_path lrc_path
                  language beam_size vad_filter skip_existing) as Hone.
    destruct (process_file audio_path lrc_path language beam_size vad_filter
                skip_existing (announce st i total)) as [st1 [b | e]].
    + cbn [fst] in Hone. apply IH in Hrun.
      unfold announce in Hone. cbn [self trace] in Hone.
      rewrite failure_lines_app in Hone. cbn in Hone. lia.
    + cbn [fst] in Hone. inversion Hrun; subst.
      unfold announce in Hone. cbn [self trace] in Hone.
      rewrite failure_lines_app in Hone. cbn in Hone. lia.
Qed.

(** A walk, however it ends, has printed as many failure lines as it has
    added to [error_count]. *)
Lemma process_directory_failures directory recursive language beam_size vad_filter
    skip_existing (st st' : St World) r :
  process_directory directory recursive language beam_size vad_filter skip_existing st
  = (st', r) ->
  failure_lines (trace st') + error_count (self st)
  = failure_lines (trace st) + error_count (self st').
Proof.
  intros Hrun.
  pose proof (find_audio_files_pure directory recursive st) as Hpure.
  destruct (find_audio_files directory recursive st) as [st0 [tasks | e]] eqn:Hfind;
    cbn [fst] in Hpure; subst st0.
  - destruct tasks as [ | t rest].
    + rewrite (process_directory_empty _ _ _ _ _ _ _ Hfind) in Hrun.
      inversion Hrun; subst. cbn [self trace].
      rewrite failure_lines_app. cbn. lia.
    + rewrite (process_directory_walk _ _ _ _ _ _ _ _ Hfind) in Hrun by discriminate.
      destruct (process_loop (List.length (t :: rest)) (enumerate (t :: rest) 1)
                  language beam_size vad_filter skip_existing
                  (header st (List.length (t :: rest)) recursive language))
        as [st1 r1] eqn:Hloop.
      apply process_loop_failures in Hloop.
      unfold header in Hloop. cbn [self trace] in Hloop.
      rewrite !failure_lines_app in Hloop.
      assert (Hlang : failure_lines
                        (if truthy language
                         then [LanguageLine match language with
                                            | Some l => l
                                            | None => ""
                                            end]
                         else []) = 0)
        by (destruct (truthy language); reflexivity).
      rewrite Hlang in Hloop. cbn in Hloop.
      destruct r1 as [u | e]; inversion Hrun; subst; cbn [self trace].
      * rewrite failure_lines_app. cbn. lia.
      * lia.
  - unfold process_directory, bind at 1 in Hrun. rewrite Hfind in Hrun.
    inversion Hrun; subst. reflexivity.
Qed.

(** Running a method inside the process. *)
Lemma call_method_run {A} (b : BatchProcessor) (m : M (St World) A) (env : Env World)
    b' env' r :
  call_method b m env = (b', env', r) ->
  m (mkSt b (env_world env) (env_trace env))
  = (mkSt b' (env_world env') (env_trace env'), r).
Proof.
  unfold call_method.
  destruct (m (mkSt b (env_world env) (env_trace env))) as [[b0 w0 t0] r0].
  cbn [self world trace]. intros E. inversion E; subst. reflexivity.
Qed.

End BatchFacts.

(** ** The claims about [format_timestamp_lrc] *)

Lemma str_int_long z : (10 <= z)%Z -> 2 <= String.length (PyStr.str_int z).
Proof.
  intros Hz. unfold PyStr.str_int.
  pose proof (DecimalZ.of_to z) as E.
  destruct (Z.to_int z) as [u | u].
  - destruct u as [ | u | u | u | u | u | u | u | u | u | u ];
      try (cbn in E; lia);
      destruct u; try (cbn in E; lia); cbn; lia.
  - cbn in E. unfold Z.of_uint in E. lia.
Qed.

(** From ten on, ['02d'] adds nothing to the decimal writing. *)
Lemma format_02d_large z : (10 <= z)%Z -> PyStr.format_02d z = PyStr.str_int z.
Proof.
  intros Hz. unfold PyStr.format_02d.
  destruct (z <? 0)%Z eqn:E; [apply Z.ltb_lt in E; lia | ].
  unfold PyStr.zfill_left.
  pose proof (str_int_long z Hz) as Hl.
  replace (2 - String.length (PyStr.str_int z)) with 0 by lia.
  reflexivity.
Qed.

(** C5. The three examples of the timestamp formatter, the second one both
    for the decimal 91.47 and for the double that Python reads for it; and
    from 3600 seconds on the minutes are 60 or more and are written as their
    plain decimal, not wrapped at 60. *)
Theorem format_timestamp_examples :
  format_timestamp_lrc 0 = "[00:00.00]"
  /\ format_timestamp_lrc 91.47 = "[01:31.47]"
  /\ format_timestamp_lrc double_91_47 = "[01:31.47]"
  /\ format_timestamp_lrc 3661 = "[61:01.00]"
  /\ forall s : Q,
       (3600 <= s)%Q ->
       (60 <= floordiv60 s)%Z
       /\ format_timestamp_lrc s
          = "[" ++ PyStr.str_int (floordiv60 s) ++ ":"
                ++ PyStr.format_05_2f (mod60 s) ++ "]".
Proof.
  split; [vm_compute; reflexivity | ].
  split; [vm_compute; reflexivity | ].
  split; [vm_compute; reflexivity | ].
  split; [vm_compute; reflexivity | ].
  intros s Hs. split.
  - pose proof (floordiv60_spec s) as [A B].
    change (inject_Z 60) with 60%Q in A, B.
    apply Z.lt_succ_r. rewrite Zlt_Qlt. unfold Z.succ.
    rewrite inject_Z_plus. change (inject_Z 60) with 60%Q.
    change (inject_Z 1) with 1%Q. lra.
  - unfold format_timestamp_lrc. rewrite format_02d_large; [reflexivity | ].
    pose proof (floordiv60_spec s) as [A B].
    change (inject_Z 60) with 60%Q in A, B.
    apply Z.lt_succ_r. rewrite Zlt_Qlt. unfold Z.succ.
    rewrite inject_Z_plus. change (inject_Z 10) with 10%Q.
    change (inject_Z 1) with 1%Q. lra.
Qed.

Lemma format_timestamp_examples_witness :
  (3600 <= 3661)%Q
  /\ (60 <= floordiv60 3661)%Z
  /\ format_timestamp_lrc 3661 = "[" ++ "61" ++ ":" ++ "01.00" ++ "]".
Proof.
  assert (Hs : (3600 <= 3661)%Q) by (vm_compute; discriminate).
  split; [exact Hs | ].
  exact (proj2 (proj2 (proj2 (proj2 format_timestamp_examples))) 3661%Q Hs).
Defined.

(** C4. The seconds field can read 60.00: for 59.999 seconds, as a decimal
    and as the double Python reads for it, the remainder modulo 60 is below
    60 but its two-digit rounding is not, and the timestamp is [[00:60.00]]. *)
Theorem seconds_field_reads_60 :
  format_timestamp_lrc 59.999 = "[00:60.00]"
  /\ format_timestamp_lrc double_59_999 = "[00:60.00]"
  /\ seconds_field (format_timestamp_lrc double_59_999) = "60.00"
  /\ (0 <= double_59_999)%Q /\ (mod60 double_59_999 < 60)%Q.
Proof.
  split; [vm_compute; reflexivity | ].
  split; [vm_compute; reflexivity | ].
  split; [vm_compute; reflexivity | ].
  split; vm_compute; [discriminate | reflexivity].
Qed.

(** C6. Round trip: for every number of seconds [s] between 0 and 3599.99
    the timestamp has the shape [[dd:dd.dd]] that the regular expression
    accepts, and the minutes and seconds read back from it give
    [minutes * 60 + seconds] within 0.01 of [s]. *)
Theorem timestamp_round_trip (s : Q) :
  (0 <= s)%Q -> (s <= 3599.99)%Q ->
  matches_timestamp_regex (format_timestamp_lrc s) = true /\
  exists (minutes : Z) (seconds : Q),
    parse_timestamp (format_timestamp_lrc s) = Some (minutes, seconds) /\
    (Qabs (inject_Z minutes * 60 + seconds - s) <= 0.01)%Q.
Proof.
  intros H0 H1.
  assert (H2 : (s < 3600)%Q) by lra.
  pose proof (format_timestamp_lrc_shape s H0 H2) as Hs. cbv zeta in Hs.
  pose proof (hundredths_range s) as Hh.
  pose proof (round_half_even_close (mod60 s * inject_Z 100)) as Hc.
  pose proof (mod60_decompose s) as Hd.
  pose proof (floordiv60_spec s) as [A B].
  set (m := floordiv60 s) in *.
  set (h := PyStr.round_half_even (mod60 s * inject_Z 100)) in *.
  set (r := mod60 s) in *.
  assert (Hm : (0 <= m < 60)%Z).
  { change (inject_Z 60) with 60%Q in A, B. split.
    - apply Z.lt_succ_r. rewrite Zlt_Qlt. unfold Z.succ.
      rewrite inject_Z_plus. change (inject_Z 0) with 0%Q.
      change (inject_Z 1) with 1%Q. lra.
    - rewrite Zlt_Qlt. change (inject_Z 60) with 60%Q. lra. }
  assert (Hdig : timestamp_digits (format_timestamp_lrc s)
                 = Some (digit_char (m / 10), digit_char (m mod 10),
                         digit_char (h / 1000), digit_char (h / 100 mod 10),
                         digit_char (h / 10 mod 10), digit_char (h mod 10))).
  { rewrite Hs. apply timestamp_digits_of_shape.
    - split; [apply Z.div_pos; lia | apply Z.div_lt_upper_bound; lia].
    - apply Z.mod_pos_bound; lia.
    - split; [apply Z.div_pos; lia | apply Z.div_lt_upper_bound; lia].
    - apply Z.mod_pos_bound; lia.
    - apply Z.mod_pos_bound; lia.
    - apply Z.mod_pos_bound; lia. }
  split.
  - unfold matches_timestamp_regex. rewrite Hdig. reflexivity.
  - unfold parse_timestamp. rewrite Hdig.
    eexists. eexists. split; [reflexivity | ].
    assert (D1 : digit_value (digit_char (m / 10)) = (m / 10)%Z).
    { apply digit_char_ok. split; [apply Z.div_pos; lia | apply Z.div_lt_upper_bound; lia]. }
    assert (D2 : digit_value (digit_char (m mod 10)) = (m mod 10)%Z).
    { apply digit_char_ok. apply Z.mod_pos_bound; lia. }
    assert (D3 : digit_value (digit_char (h / 1000)) = (h / 1000)%Z).
    { apply digit_char_ok. split; [apply Z.div_pos; lia | apply Z.div_lt_upper_bound; lia]. }
    assert (D4 : digit_value (digit_char (h / 100 mod 10)) = (h / 100 mod 10)%Z).
    { apply digit_char_ok. apply Z.mod_pos_bound; lia. }
    assert (D5 : digit_value (digit_char (h / 10 mod 10)) = (h / 10 mod 10)%Z).
    { apply digit_char_ok. apply Z.mod_pos_bound; lia. }
    assert (D6 : digit_value (digit_char (h mod 10)) = (h mod 10)%Z).
    { apply digit_char_ok. apply Z.mod_pos_bound; lia. }
    rewrite D1, D2, D3, D4, D5, D6.
    replace (10 * (m / 10) + m mod 10)%Z with m
      by (Z.div_mod_to_equations; lia).
    replace (10 * (h / 1000) + h / 100 mod 10)%Z with (h / 100)%Z
      by (Z.div_mod_to_equations; lia).
    replace (10 * (h / 10 mod 10) + h mod 10)%Z with (h mod 100)%Z
      by (Z.div_mod_to_equations; lia).
    assert (Eh : (inject_Z (h / 100) + inject_Z (h mod 100) / inject_Z 100
                  == inject_Z h * (1 # 100))%Q).
    { rewrite (Z.div_mod h 100) at 3 by lia.
      rewrite inject_Z_plus, inject_Z_mult.
      change (inject_Z 100) with 100%Q.
      set (a := inject_Z (h / 100)). set (b := inject_Z (h mod 100)).
      field. }
    apply Qabs_Qle_condition in Hc.
    apply Qabs_Qle_condition.
    change (inject_Z 60) with 60%Q in *. change (inject_Z 100) with 100%Q in *.
    set (sec := (inject_Z (h / 100) + inject_Z (h mod 100) / 100)%Q) in *.
    clearbody sec. split; lra.
Qed.

Lemma timestamp_round_trip_witness :
  matches_timestamp_regex (format_timestamp_lrc double_91_47) = true /\
  exists (minutes : Z) (seconds : Q),
    parse_timestamp (format_timestamp_lrc double_91_47) = Some (minutes, seconds) /\
    (Qabs (inject_Z minutes * 60 + seconds - double_91_47) <= 0.01)%Q.
Proof.
  apply (timestamp_round_trip double_91_47); vm_compute; discriminate.
Defined.

(** ** The claims about [is_audio_file] and the output path *)

Lemma str_in_In x l : str_in x l = true <-> In x l.
Proof.
  unfold str_in. rewrite existsb_exists. split.
  - intros (y & Hy & E). apply String.eqb_eq in E. now subst y.
  - intros Hx. exists x. split; [exact Hx | apply String.eqb_refl].
Qed.

(** C7. [is_audio_file] accepts an extension exactly when its lower-cased
    form is one of the nineteen extensions of the allow-list; it accepts
    [.MP3] and rejects [.txt]; and whatever the case of the letters, every
    spelling of an allow-listed extension is accepted, two spellings that
    differ only in case being treated alike. *)
Theorem is_audio_file_allow_list :
  (forall ext : string,
     is_audio_file ext = true
     <-> In (lower ext)
            [ ".mp3"; ".mp4"; ".wav"; ".m4a"; ".flac"; ".aac"; ".ogg"; ".wma";
              ".opus"; ".mp2"; ".m4b"; ".m4p"; ".webm"; ".mkv"; ".avi"; ".mov";
              ".wmv"; ".flv"; ".3gp" ])
  /\ is_audio_file ".MP3" = true
  /\ is_audio_file ".txt" = false
  /\ (forall ext spelling : string,
        In ext audio_extensions -> lower spelling = ext ->
        is_audio_file spelling = true)
  /\ (forall ext : string,
        In ext audio_extensions ->
        is_audio_file ext = true /\ is_audio_file (upper ext) = true)
  /\ (forall s t : string, lower s = lower t -> is_audio_file s = is_audio_file t).
Proof.
  split; [ | split; [ | split; [ | split; [ | split ] ] ] ].
  - intros ext. unfold is_audio_file. apply str_in_In.
  - reflexivity.
  - reflexivity.
  - intros ext spelling Hin Hlow. unfold is_audio_file. rewrite Hlow.
    now apply str_in_In.
  - intros ext Hin. unfold audio_extensions in Hin. cbn [In] in Hin.
    repeat (destruct Hin as [<- | Hin]; [split; reflexivity | ]).
    contradiction.
  - intros s t E. unfold is_audio_file. now rewrite E.
Qed.

Lemma is_audio_file_allow_list_witness :
  In ".flac" audio_extensions /\ lower ".FlaC" = ".flac"
  /\ is_audio_file ".FlaC" = true.
Proof.
  assert (Hin : In ".flac" audio_extensions) by (cbn; tauto).
  assert (Hlow : lower ".FlaC" = ".flac") by reflexivity.
  split; [exact Hin | split; [exact Hlow | ] ].
  exact (proj1 (proj2 (proj2 (proj2 is_audio_file_allow_list)))
           ".flac" ".FlaC" Hin Hlow).
Defined.

(** The suffix of an audio file is not empty, so [with_suffix] replaces it. *)
Lemma audio_suffix_nonempty p :
  is_audio_file (lower (pathlib.suffix p)) = true -> pathlib.suffix p <> "".
Proof.
  intros Ha E. rewrite E in Ha. discriminate Ha.
Qed.

(** C3, as the code has it.  The batch walker derives the destination with
    [with_suffix('.lrc')]: for a path whose file name has a suffix the result
    has the same root and parent directory and the same stem, its name is
    the stem followed by [.lrc], and only the final extension has gone
    ([/a/b/song.mp3] gives [/a/b/song.lrc], [v1.2.mp3] gives [v1.2.lrc]).
    [get_output_filename] returns a bare file name: the directory of its
    argument is dropped ([/a/b/song.mp3] gives [song.lrc]) and only the
    final extension is replaced ([v1.2.mp3] gives [v1.2.lrc]). *)
Theorem output_path_derivation :
  (forall p : pathlib.Path,
     pathlib.suffix p <> "" ->
     exists p' : pathlib.Path,
       pathlib.with_suffix p ".lrc" = Ret p'
       /\ pathlib.root p' = pathlib.root p
       /\ pathlib.parent p' = pathlib.parent p
       /\ pathlib.stem p' = pathlib.stem p
       /\ pathlib.suffix p' = ".lrc"
       /\ pathlib.name p' = pathlib.stem p ++ ".lrc"
       /\ pathlib.name p = pathlib.stem p ++ pathlib.suffix p)
  /\ pathlib.with_suffix (pathlib.parse "/a/b/song.mp3") ".lrc"
     = Ret (pathlib.parse "/a/b/song.lrc")
  /\ pathlib.str (pathlib.parse "/a/b/song.lrc") = "/a/b/song.lrc"
  /\ pathlib.with_suffix (pathlib.parse "v1.2.mp3") ".lrc"
     = Ret (pathlib.parse "v1.2.lrc")
  /\ (forall directory name : string,
        contains_char "/" name = false ->
        get_output_filename (directory ++ "/" ++ name) = get_output_filename name)
  /\ get_output_filename "/a/b/song.mp3" = "song.lrc"
  /\ get_output_filename "v1.2.mp3" = "v1.2.lrc".
Proof.
  split; [ | repeat split; try reflexivity ].
  - intros p Hne. eexists. split; [apply with_suffix_lrc; exact Hne | ].
    assert (Hpos : 0 < String.length (pathlib.stem p))
      by (apply name_stem_nonempty; exact Hne).
    destruct (name_suffix_lrc (pathlib.stem p) Hpos) as [Hs Ht].
    unfold pathlib.parent, pathlib.stem, pathlib.suffix, pathlib.name in *.
    cbn [pathlib.root pathlib.parts].
    rewrite removelast_last, last_last.
    repeat split; try assumption; try reflexivity.
    symmetry. apply name_stem_suffix.
  - intros directory name Hn. now apply get_output_filename_drops_directory.
Qed.

Lemma output_path_derivation_witness :
  pathlib.suffix (pathlib.parse "/a/b/v1.2.mp3") <> ""
  /\ exists p' : pathlib.Path,
       pathlib.with_suffix (pathlib.parse "/a/b/v1.2.mp3") ".lrc" = Ret p'
       /\ pathlib.root p' = "/"
       /\ pathlib.parent p' = pathlib.parse "/a/b"
       /\ pathlib.stem p' = pathlib.stem (pathlib.parse "/a/b/v1.2.mp3")
       /\ pathlib.suffix p' = ".lrc"
       /\ pathlib.name p' = pathlib.stem (pathlib.parse "/a/b/v1.2.mp3") ++ ".lrc"
       /\ "v1.2.mp3" = pathlib.stem (pathlib.parse "/a/b/v1.2.mp3")
                       ++ pathlib.suffix (pathlib.parse "/a/b/v1.2.mp3").
Proof.
  assert (Hne : pathlib.suffix (pathlib.parse "/a/b/v1.2.mp3") <> "")
    by (vm_compute; discriminate).
  split; [exact Hne | ].
  exact (proj1 output_path_derivation (pathlib.parse "/a/b/v1.2.mp3") Hne).
Defined.

(** C3 as stated fails for [get_output_filename]: the directory is not
    kept. *)
Lemma get_output_filename_loses_directory :
  get_output_filename "/a/b/song.mp3" = "song.lrc"
  /\ get_output_filename "/a/b/song.mp3" <> "/a/b/song.lrc".
Proof.
  split; [reflexivity | vm_compute; discriminate].
Qed.

(** ** The claims about the batch walker *)

Section BatchClaims.

Context {World : Type} `{Host World}.

(** C8. Skip policy: with [skip_existing] set, a task whose destination
    exists is skipped on that ground alone: [process_file] returns [False],
    [skipped_count] goes up by one, the other two counters and the world
    stay as they are, and the only thing that happens is the line that
    reports the skip; in particular the engine is not called. *)
Theorem skip_policy (st : St World) (audio_path lrc_path : pathlib.Path)
    (language : option string) (beam_size : Z) (vad_filter : bool) :
  path_exists (world st) lrc_path = Ret true ->
  exists st' : St World,
    process_file audio_path lrc_path language beam_size vad_filter true st
    = (st', Ret false)
    /\ skipped_count (self st') = skipped_count (self st) + 1
    /\ processed_count (self st') = processed_count (self st)
    /\ error_count (self st') = error_count (self st)
    /\ world st' = world st
    /\ trace st' = (trace st ++ [SkipExisting lrc_path])%list.
Proof.
  intros Hex. exists (after_skip st lrc_path). split.
  - apply process_file_skip. exact Hex.
  - repeat split.
Qed.

(** C1, as the code has it.  An exception of class [Exception] that the
    engine raises for a task is caught inside [process_file], which returns
    [False] with [error_count] one higher and the other counters unchanged;
    the loop then goes on with the remaining tasks; and a walk over three
    tasks, none of them skipped, in which the engine fails on exactly the
    second with such an exception, completes with 2 processed, 1 error and
    0 skipped, 3 in all.  (An exception that is not of class [Exception],
    such as [KeyboardInterrupt], is not caught.) *)
Theorem partial_failure_isolation :
  (forall (st : St World) audio_path lrc_path language beam_size vad_filter
          skip_existing w e,
     skip_check skip_existing (world st) lrc_path = Ret false ->
     transcribe_to_lrc (world st) (generator (self st)) (pathlib.str audio_path)
       (Some (pathlib.str lrc_path)) language beam_size vad_filter = (w, Raise e) ->
     isinstance_Exception e = true ->
     exists st' : St World,
       process_file audio_path lrc_path language beam_size vad_filter skip_existing st
       = (st', Ret false)
       /\ error_count (self st') = error_count (self st) + 1
       /\ processed_count (self st') = processed_count (self st)
       /\ skipped_count (self st') = skipped_count (self st))
  /\ (forall (st : St World) total i audio_path lrc_path rest language beam_size
             vad_filter skip_existing w e,
        skip_check skip_existing (world st) lrc_path = Ret false ->
        transcribe_to_lrc (world st) (generator (self st)) (pathlib.str audio_path)
          (Some (pathlib.str lrc_path)) language beam_size vad_filter = (w, Raise e) ->
        isinstance_Exception e = true ->
        exists st' : St World,
          process_loop total ((i, (audio_path, lrc_path)) :: rest) language
            beam_size vad_filter skip_existing st
          = process_loop total rest language beam_size vad_filter skip_existing st'
          /\ self st' = record_outcome Failed (self st)
          /\ world st' = w)
  /\ (forall (st : St World) directory recursive language beam_size vad_filter
             skip_existing audio1 lrc1 audio2 lrc2 audio3 lrc3 w1 w2 w3 out1 out3 e,
        processed_count (self st) = 0 ->
        skipped_count (self st) = 0 ->
        error_count (self st) = 0 ->
        snd (find_audio_files directory recursive st)
        = Ret [(audio1, lrc1); (audio2, lrc2); (audio3, lrc3)] ->
        skip_check skip_existing (world st) lrc1 = Ret false ->
        transcribe_to_lrc (world st) (generator (self st)) (pathlib.str audio1)
          (Some (pathlib.str lrc1)) language beam_size vad_filter = (w1, Ret out1) ->
        skip_check skip_existing w1 lrc2 = Ret false ->
        transcribe_to_lrc w1 (generator (self st)) (pathlib.str audio2)
          (Some (pathlib.str lrc2)) language beam_size vad_filter = (w2, Raise e) ->
        isinstance_Exception e = true ->
        skip_check skip_existing w2 lrc3 = Ret false ->
        transcribe_to_lrc w2 (generator (self st)) (pathlib.str audio3)
          (Some (pathlib.str lrc3)) language beam_size vad_filter = (w3, Ret out3) ->
        exists st' : St World,
          process_directory directory recursive language beam_size vad_filter
            skip_existing st = (st', Ret tt)
          /\ processed_count (self st') = 2
          /\ error_count (self st') = 1
          /\ skipped_count (self st') = 0
          /\ total_count (self st') = 3).
Proof.
  split; [ | split ].
  - intros st audio_path lrc_path language beam_size vad_filter skip_existing w e
           Hskip Hrun He.
    eexists. split; [eapply process_file_failure; eassumption | ].
    cbn [self record_outcome processed_count skipped_count error_count].
    repeat split.
  - intros st total i audio_path lrc_path rest language beam_size vad_filter
           skip_existing w e Hskip Hrun He.
    eexists. rewrite process_loop_cons.
    erewrite process_file_failure; [ | exact Hskip | exact Hrun | exact He ].
    repeat split.
  - intros st directory recursive language beam_size vad_filter skip_existing
           audio1 lrc1 audio2 lrc2 audio3 lrc3 w1 w2 w3 out1 out3 e
           Hp Hs He Hfind Hk1 Hr1 Hk2 Hr2 Hexc Hk3 Hr3.
    apply find_audio_files_result in Hfind.
    rewrite (process_directory_walk _ _ _ _ _ _ _ _ Hfind) by discriminate.
    cbn [enumerate List.length].
    rewrite process_loop_cons.
    erewrite process_file_success; [ | exact Hk1 | exact Hr1 ].
    rewrite process_loop_cons.
    erewrite process_file_failure; [ | exact Hk2 | exact Hr2 | exact Hexc ].
    rewrite process_loop_cons.
    erewrite process_file_success; [ | exact Hk3 | exact Hr3 ].
    rewrite process_loop_nil.
    eexists. split; [reflexivity | ].
    unfold total_count, announce, header.
    cbn [self record_outcome processed_count skipped_count error_count].
    rewrite Hp, Hs, He. repeat split.
Qed.

(** C2. Run statistics.  From a processor whose three counters are zero, a
    walk that returns has recorded exactly one outcome (succeeded, skipped
    or failed), hence one increment of one counter, for each discovered
    task, and the three counters add up to the number of discovered tasks. *)
Theorem run_statistics_invariant (st st' : St World) directory recursive language
    beam_size vad_filter skip_existing tasks :
  processed_count (self st) = 0 ->
  skipped_count (self st) = 0 ->
  error_count (self st) = 0 ->
  snd (find_audio_files directory recursive st) = Ret tasks ->
  process_directory directory recursive language beam_size vad_filter skip_existing st
  = (st', Ret tt) ->
  (exists outcomes : list outcome,
     List.length outcomes = List.length tasks
     /\ self st' = record_all outcomes (self st))
  /\ processed_count (self st') + skipped_count (self st') + error_count (self st')
     = List.length tasks.
Proof.
  intros Hp Hs He Hfind Hrun.
  apply find_audio_files_result in Hfind.
  destruct (process_directory_outcomes _ _ _ _ _ _ _ _ _ Hfind Hrun)
    as (outcomes & Hlen & Hself & _).
  split; [now exists outcomes | ].
  change (total_count (self st') = List.length tasks).
  rewrite Hself, total_count_record_all, Hlen.
  unfold total_count. rewrite Hp, Hs, He. reflexivity.
Qed.

(** C9. Exit code of batch mode.  When the walk returns, [main] returns 0,
    which is the exit status, and the failures are counted: the walk has
    added to [error_count] one for each failure line it printed.  And the
    walk does return, whatever the number of files that failed, as soon as
    discovery returned, the engine fails only with exceptions of class
    [Exception], and [exists] is not called ([--force]) or does not raise:
    every task is then counted once, each failure in [error_count], and
    [main] still returns 0. *)
Theorem batch_exit_code :
  (forall (args : Args) (env env1 env2 : Env World) batch processor processor',
     truthy (arg_input args) = false ->
     arg_batch args = Some batch ->
     batch <> "" ->
     os_path_isdir (env_world env) batch = true ->
     BatchProcessor_init (arg_model args) (arg_device args) (arg_compute_type args) env
     = (env1, Ret processor) ->
     call_method processor
       (process_directory batch (negb (arg_no_recursive args)) (arg_language args)
          (arg_beam_size args) (arg_vad_filter args) (negb (arg_force args))) env1
     = (processor', env2, Ret tt) ->
     main args env = (env2, Ret (Some 0%Z))
     /\ exit_status (Some 0%Z) = 0%Z
     /\ failure_lines (env_trace env2) + error_count processor
        = failure_lines (env_trace env1) + error_count processor')
  /\ (forall (args : Args) (env env1 : Env World) batch processor tasks,
        truthy (arg_input args) = false ->
        arg_batch args = Some batch ->
        batch <> "" ->
        os_path_isdir (env_world env) batch = true ->
        BatchProcessor_init (arg_model args) (arg_device args) (arg_compute_type args) env
        = (env1, Ret processor) ->
        engine_raises_only_Exception ->
        arg_force args = true \/ exists_never_raises ->
        snd (find_audio_files batch (negb (arg_no_recursive args))
               (mkSt processor (env_world env1) (env_trace env1)))
        = Ret tasks ->
        exists (env2 : Env World) (processor' : BatchProcessor),
          call_method processor
            (process_directory batch (negb (arg_no_recursive args)) (arg_language args)
               (arg_beam_size args) (arg_vad_filter args) (negb (arg_force args))) env1
          = (processor', env2, Ret tt)
          /\ main args env = (env2, Ret (Some 0%Z))
          /\ total_count processor' = total_count processor + List.length tasks
          /\ failure_lines (env_trace env2) + error_count processor
             = failure_lines (env_trace env1) + error_count processor').
Proof.
  assert (Hmain : forall (args : Args) (env env1 env2 : Env World) batch processor
                         processor',
             truthy (arg_input args) = false ->
             arg_batch args = Some batch ->
             batch <> "" ->
             os_path_isdir (env_world env) batch = true ->
             BatchProcessor_init (arg_model args) (arg_device args)
               (arg_compute_type args) env = (env1, Ret processor) ->
             call_method processor
               (process_directory batch (negb (arg_no_recursive args))
                  (arg_language args) (arg_beam_size args) (arg_vad_filter args)
                  (negb (arg_force args))) env1
             = (processor', env2, Ret tt) ->
             main args env = (env2, Ret (Some 0%Z))).
  { intros args env env1 env2 batch processor processor' Hin Hb Hne Hdir Hinit Hwalk.
    unfold main. rewrite Hin, Hb. cbn [truthy].
    destruct (String.eqb batch "") eqn:E; [apply String.eqb_eq in E; contradiction | ].
    cbn [negb]. unfold main_batch. rewrite Hdir. cbn [negb].
    rewrite Hinit, Hwalk. reflexivity. }
  assert (Hcount : forall (env1 env2 : Env World) processor processor' directory
                          recursive language beam_size vad_filter skip_existing r,
             call_method processor
               (process_directory directory recursive language beam_size vad_filter
                  skip_existing) env1
             = (processor', env2, r) ->
             failure_lines (env_trace env2) + error_count processor
             = failure_lines (env_trace env1) + error_count processor').
  { intros env1 env2 processor processor' directory recursive language beam_size
           vad_filter skip_existing r Hwalk.
    apply call_method_run in Hwalk. apply process_directory_failures in Hwalk.
    exact Hwalk. }
  split.
  - intros args env env1 env2 batch processor processor' Hin Hb Hne Hdir Hinit Hwalk.
    split; [ | split; [reflexivity | ] ].
    + eapply Hmain; eassumption.
    + eapply Hcount; eassumption.
  - intros args env env1 batch processor tasks Hin Hb Hne Hdir Hinit Honly Hex Hfind.
    apply find_audio_files_result in Hfind.
    assert (Hex' : negb (arg_force args) = false \/ exists_never_raises).
    { destruct Hex as [Hforce | Hex]; [left; now rewrite Hforce | now right]. }
    destruct (process_directory_completes batch (negb (arg_no_recursive args))
                (arg_language args) (arg_beam_size args) (arg_vad_filter args)
                (negb (arg_force args)) _ _ Honly Hex' Hfind) as [st' Hrun].
    destruct (process_directory_outcomes _ _ _ _ _ _ _ _ _ Hfind Hrun)
      as (outcomes & Hlen & Hself & _).
    assert (Hwalk : call_method processor
              (process_directory batch (negb (arg_no_recursive args))
                 (arg_language args) (arg_beam_size args) (arg_vad_filter args)
                 (negb (arg_force args))) env1
            = (self st', mkEnv (world st') (trace st'), Ret tt)).
    { unfold call_method. rewrite Hrun. reflexivity. }
    exists (mkEnv (world st') (trace st')), (self st').
    split; [exact Hwalk | split; [ | split ] ].
    + eapply Hmain; eassumption.
    + rewrite Hself, total_count_record_all, Hlen. reflexivity.
    + eapply Hcount; exact Hwalk.
Qed.

(** C10. The counters are cumulative.  [__init__] is the only place that
    sets them to zero; [process_directory], started from any values of the
    counters, never lowers one of them and adds exactly one outcome per
    discovered task to what was there, so that after a second call on the
    same object the statistics printed show the counts of both runs next to
    a total that is the number of files of the second run alone. *)
Theorem counters_are_cumulative :
  (forall model_size device compute_type (env env' : Env World) b,
     BatchProcessor_init model_size device compute_type env = (env', Ret b) ->
     processed_count b = 0 /\ skipped_count b = 0 /\ error_count b = 0)
  /\ (forall (st st' : St World) directory recursive language beam_size vad_filter
             skip_existing tasks,
        snd (find_audio_files directory recursive st) = Ret tasks ->
        process_directory directory recursive language beam_size vad_filter
          skip_existing st = (st', Ret tt) ->
        processed_count (self st) <= processed_count (self st')
        /\ skipped_count (self st) <= skipped_count (self st')
        /\ error_count (self st) <= error_count (self st')
        /\ total_count (self st') = total_count (self st) + List.length tasks
        /\ (tasks <> [] ->
            exists earlier : list event,
              trace st'
              = (earlier
                   ++ [ BatchDone; TotalFiles (List.length tasks);
                        ProcessedFiles (processed_count (self st'));
                        SkippedFiles (skipped_count (self st'));
                        ErrorFiles (error_count (self st')) ])%list)).
Proof.
  split.
  - intros model_size device compute_type env env' b Hinit.
    unfold BatchProcessor_init in Hinit.
    destruct (generator_new (env_world env) model_size device compute_type)
      as [w [g | e]]; inversion Hinit; subst. repeat split.
  - intros st st' directory recursive language beam_size vad_filter skip_existing
           tasks Hfind Hrun.
    apply find_audio_files_result in Hfind.
    destruct (process_directory_outcomes _ _ _ _ _ _ _ _ _ Hfind Hrun)
      as (outcomes & Hlen & Hself & Hstats).
    pose proof (record_all_monotone outcomes (self st)) as (Hp & Hs & He).
    rewrite <- Hself in Hp, Hs, He.
    repeat split; try assumption.
    rewrite Hself, total_count_record_all, Hlen. reflexivity.
Qed.

End BatchClaims.

(** ** The claims of the batch walker in the concrete world *)

(** The destination of the first song is there: the task is skipped. *)
Lemma skip_policy_witness :
  path_exists (world (Demo.fresh Demo.world_one_done)) (pathlib.parse "/music/a.lrc")
  = Ret true
  /\ exists st' : St Demo.World,
       process_file Demo.song1 (pathlib.parse "/music/a.lrc") None 5 false true
         (Demo.fresh Demo.world_one_done) = (st', Ret false)
       /\ skipped_count (self st') = 0 + 1
       /\ processed_count (self st') = 0
       /\ error_count (self st') = 0
       /\ world st' = Demo.world_one_done
       /\ trace st' = [SkipExisting (pathlib.parse "/music/a.lrc")].
Proof.
  assert (Hex : path_exists (world (Demo.fresh Demo.world_one_done))
                  (pathlib.parse "/music/a.lrc") = Ret true) by reflexivity.
  split; [exact Hex | ].
  exact (skip_policy (Demo.fresh Demo.world_one_done) Demo.song1
           (pathlib.parse "/music/a.lrc") None 5%Z false Hex).
Defined.

(** Three songs, the engine failing on the second one. *)
Lemma partial_failure_isolation_witness :
  exists st' : St Demo.World,
    process_directory "/music" true None 5 false true
      (Demo.fresh Demo.world_fail_second) = (st', Ret tt)
    /\ processed_count (self st') = 2
    /\ error_count (self st') = 1
    /\ skipped_count (self st') = 0
    /\ total_count (self st') = 3.
Proof.
  eapply (proj2 (proj2 partial_failure_isolation)
            (Demo.fresh Demo.world_fail_second) "/music" true None 5%Z false true
            Demo.song1 (pathlib.parse "/music/a.lrc")
            Demo.song2 (pathlib.parse "/music/b.lrc")
            Demo.song3 (pathlib.parse "/music/live/c.lrc"));
    reflexivity.
Defined.

(** C1 as stated fails for an exception that is not of class [Exception]:
    with three songs and a user who interrupts the transcription of the
    second, the [KeyboardInterrupt] leaves [process_file] and the walk,
    [error_count] stays 0 and the third song is never tried. *)
Lemma interrupt_is_not_isolated :
  snd (@find_audio_files Demo.World Demo.host_interrupted "/music" true
         (Demo.fresh Demo.world_three_songs))
  = Ret [ (Demo.song1, pathlib.parse "/music/a.lrc");
          (Demo.song2, pathlib.parse "/music/b.lrc");
          (Demo.song3, pathlib.parse "/music/live/c.lrc") ]
  /\ exists st' : St Demo.World,
       @process_directory Demo.World Demo.host_interrupted "/music" true None 5
         false true (Demo.fresh Demo.world_three_songs)
       = (st', Raise (mkExn KeyboardInterrupt ""))
       /\ processed_count (self st') = 1
       /\ error_count (self st') = 0
       /\ skipped_count (self st') = 0
       /\ engine_calls (trace st') = 2
       /\ ~ In (Transcribe "/music/live/c.FLAC" (Some "/music/live/c.lrc"))
              (trace st').
Proof.
  split; [vm_compute; reflexivity | ].
  exists (fst (@process_directory Demo.World Demo.host_interrupted "/music" true None
                 5%Z false true (Demo.fresh Demo.world_three_songs))).
  split; [vm_compute; reflexivity | ].
  split; [vm_compute; reflexivity | ].
  split; [vm_compute; reflexivity | ].
  split; [vm_compute; reflexivity | ].
  split; [vm_compute; reflexivity | ].
  vm_compute. intros Hin.
  repeat (destruct Hin as [Hin | Hin]; [discriminate Hin | ]). exact Hin.
Qed.

Lemma run_statistics_invariant_witness :
  exists st' : St Demo.World,
    process_directory "/music" true None 5 false true
      (Demo.fresh Demo.world_fail_second) = (st', Ret tt)
    /\ processed_count (self st') + skipped_count (self st') + error_count (self st')
       = 3.
Proof.
  assert (Hrun : process_directory "/music" true None 5 false true
                   (Demo.fresh Demo.world_fail_second)
                 = (fst (process_directory "/music" true None 5 false true
                           (Demo.fresh Demo.world_fail_second)), Ret tt))
    by (vm_compute; reflexivity).
  assert (Hfind : snd (find_audio_files "/music" true
                         (Demo.fresh Demo.world_fail_second))
                  = Ret [ (Demo.song1, pathlib.parse "/music/a.lrc");
                          (Demo.song2, pathlib.parse "/music/b.lrc");
                          (Demo.song3, pathlib.parse "/music/live/c.lrc") ])
    by (vm_compute; reflexivity).
  eexists. split; [exact Hrun | ].
  exact (proj2 (run_statistics_invariant (Demo.fresh Demo.world_fail_second)
                  _ _ _ _ _ _ _ _ eq_refl eq_refl eq_refl Hfind Hrun)).
Defined.

(** The engine of the concrete world fails only with exceptions of class
    [Exception]. *)
Lemma demo_engine_raises_only_Exception :
  @engine_raises_only_Exception Demo.World Demo.host.
Proof.
  intros w g audio output language beam_size vad_filter w' e Hrun.
  cbn in Hrun. unfold Demo.lookup_failure in Hrun.
  destruct (find (fun x => String.eqb (fst x) audio) (Demo.failing w)) as [x | ];
    cbn in Hrun; inversion Hrun; subst. reflexivity.
Qed.

(** With [--force], every file fails and the exit status is 0. *)
Lemma batch_exit_code_witness :
  exists (env2 : Env Demo.World) (processor' : BatchProcessor),
    call_method (mkProcessor (mkGenerator "base" "cpu" "int8") 0 0 0)
      (process_directory "/music" true None 5 false false)
      (mkEnv Demo.world_fail_all [])
    = (processor', env2, Ret tt)
    /\ main (Demo.forced_batch_args "/music") (mkEnv Demo.world_fail_all [])
       = (env2, Ret (Some 0%Z))
    /\ total_count processor' = 0 + 3
    /\ failure_lines (env_trace env2) + 0 = 0 + error_count processor'.
Proof.
  assert (Hne : "/music" <> "") by discriminate.
  assert (Hfind : snd (find_audio_files "/music" true
                         (mkSt (mkProcessor (mkGenerator "base" "cpu" "int8") 0 0 0)
                               Demo.world_fail_all []))
                  = Ret [ (Demo.song1, pathlib.parse "/music/a.lrc");
                          (Demo.song2, pathlib.parse "/music/b.lrc");
                          (Demo.song3, pathlib.parse "/music/live/c.lrc") ])
    by (vm_compute; reflexivity).
  exact (proj2 batch_exit_code (Demo.forced_batch_args "/music")
           (mkEnv Demo.world_fail_all []) (mkEnv Demo.world_fail_all []) "/music"
           (mkProcessor (mkGenerator "base" "cpu" "int8") 0 0 0) _
           eq_refl eq_refl Hne eq_refl eq_refl
           demo_engine_raises_only_Exception (or_introl eq_refl) Hfind).
Defined.

(** Two runs on the same object: the second finds both destinations in
    place and skips them, and prints a total of 2 next to 2 processed and
    2 skipped. *)
Lemma counters_are_cumulative_witness :
  exists st1 st2 : St Demo.World,
    process_directory "/music" true None 5 false true
      (Demo.fresh Demo.world_two_songs) = (st1, Ret tt)
    /\ process_directory "/music" true None 5 false true st1 = (st2, Ret tt)
    /\ total_count (self st2) = total_count (self st1) + 2
    /\ exists earlier : list event,
         trace st2
         = (earlier ++ [ BatchDone; TotalFiles 2; ProcessedFiles 2;
                         SkippedFiles 2; ErrorFiles 0 ])%list.
Proof.
  pose (st1 := fst (process_directory "/music" true None 5 false true
                      (Demo.fresh Demo.world_two_songs))).
  pose (st2 := fst (process_directory "/music" true None 5 false true st1)).
  assert (Hrun1 : process_directory "/music" true None 5 false true
                    (Demo.fresh Demo.world_two_songs) = (st1, Ret tt))
    by (vm_compute; reflexivity).
  assert (Hrun2 : process_directory "/music" true None 5 false true st1
                  = (st2, Ret tt))
    by (vm_compute; reflexivity).
  assert (Hfind : snd (find_audio_files "/music" true st1)
                  = Ret [ (Demo.song1, pathlib.parse "/music/a.lrc");
                          (Demo.song2, pathlib.parse "/music/b.lrc") ])
    by (vm_compute; reflexivity).
  assert (Hne : [ (Demo.song1, pathlib.parse "/music/a.lrc");
                  (Demo.song2, pathlib.parse "/music/b.lrc") ] <> [])
    by discriminate.
  exists st1, st2. split; [exact Hrun1 | ]. split; [exact Hrun2 | ].
  pose proof (proj2 counters_are_cumulative st1 st2 "/music" true None 5%Z false true
                _ Hfind Hrun2) as (_ & _ & _ & Htotal & Hstats).
  split; [exact Htotal | ].
  exact (Hstats Hne).
Defined.

(** * Further properties *)

(** ** [format_timestamp_lrc] *)

Lemma append_inv_head (a x y : string) : a ++ x = a ++ y -> x = y.
Proof.
  induction a as [ | c a IH]; cbn; intros E.
  - exact E.
  - inversion E. now apply IH.
Qed.

Lemma render_hundredths_60 h :
  (0 <= h <= 6000)%Z -> (render_hundredths h = "60.00" <-> h = 6000%Z).
Proof.
  intros Hh.
  assert (Hb : Bool.eqb (String.eqb (render_hundredths h) "60.00") (h =? 6000)%Z = true).
  { apply (forall_below
             (fun h => Bool.eqb (String.eqb (render_hundredths h) "60.00") (h =? 6000)%Z)
             6001).
    - vm_compute. reflexivity.
    - lia. }
  apply Bool.eqb_prop in Hb. rewrite <- String.eqb_eq, Hb. apply Z.eqb_eq.
Qed.

Lemma Qfloor_between (q : Q) (z : Z) :
  (inject_Z z <= q)%Q -> (q < inject_Z z + 1)%Q -> Qfloor q = z.
Proof.
  intros Hlo Hhi.
  pose proof (Qfloor_le q) as A. pose proof (Qlt_floor q) as B.
  rewrite inject_Z_plus in B. change (inject_Z 1) with 1%Q in B.
  assert (H1 : (Qfloor q < z + 1)%Z).
  { rewrite Zlt_Qlt, inject_Z_plus. change (inject_Z 1) with 1%Q. lra. }
  assert (H2 : (z < Qfloor q + 1)%Z).
  { rewrite Zlt_Qlt, inject_Z_plus. change (inject_Z 1) with 1%Q. lra. }
  lia.
Qed.

(** Rounding reaches 6000 hundredths exactly from 5999.5 on. *)
Lemma round_half_even_6000 (q : Q) :
  (0 <= q)%Q -> (q < 6000)%Q ->
  (PyStr.round_half_even q = 6000%Z <-> (5999.5 <= q)%Q).
Proof.
  intros H0 H1. split.
  - intros E.
    pose proof (round_half_even_close q) as Hc. rewrite E in Hc.
    apply Qabs_Qle_condition in Hc. change (inject_Z 6000) with 6000%Q in Hc. lra.
  - intros Hq.
    assert (Hf : Qfloor q = 5999%Z).
    { apply Qfloor_between; change (inject_Z 5999) with 5999%Q; lra. }
    unfold PyStr.round_half_even. rewrite Hf.
    change (inject_Z 5999) with 5999%Q.
    destruct (Qcompare_spec (q - 5999)%Q (1 # 2)%Q) as [E | L | G].
    + reflexivity.
    + lra.
    + reflexivity.
Qed.

(** X1. The seconds field reads [60.00] exactly when the remainder of the
    seconds modulo 60 is 59.995 or more: the carry of the two-digit rounding
    is never passed on to the minutes. *)
Theorem seconds_field_60_exactly (s : Q) :
  (59.995 <= mod60 s)%Q
  <-> format_timestamp_lrc s = "[" ++ PyStr.format_02d (floordiv60 s) ++ ":60.00]".
Proof.
  pose proof (mod60_range s) as [A B].
  pose proof (hundredths_range s) as Hh.
  assert (Hr : (PyStr.round_half_even (mod60 s * inject_Z 100) = 6000%Z
                <-> (59.995 <= mod60 s)%Q)).
  { rewrite round_half_even_6000.
    - change (inject_Z 100) with 100%Q. split; intros; lra.
    - change (inject_Z 100) with 100%Q. lra.
    - change (inject_Z 100) with 100%Q. lra. }
  unfold format_timestamp_lrc. rewrite format_05_2f_mod60.
  rewrite <- Hr, <- (render_hundredths_60 _ Hh).
  split.
  - intros E. rewrite E. reflexivity.
  - intros E.
    apply append_inv_head in E. apply append_inv_head in E.
    change ":60.00]" with (":" ++ "60.00]") in E.
    apply append_inv_head in E.
    set (x := render_hundredths (PyStr.round_half_even (mod60 s * inject_Z 100))) in *.
    clearbody x.
    destruct x as [ | c1 [ | c2 [ | c3 [ | c4 [ | c5 [ | c6 x]]]]]]; cbn in E;
      try discriminate E; inversion E; try reflexivity.
    destruct x; discriminate.
Qed.

(** X2. Whole seconds below 100 minutes: the fraction reads [00] and the
    seconds are the remainder modulo 60, never 60. *)
Theorem whole_seconds_are_exact (n : Z) :
  (0 <= n < 6000)%Z ->
  format_timestamp_lrc (inject_Z n)
  = string_of_list_ascii
      [ "["%char; digit_char (n / 60 / 10); digit_char (n / 60 mod 10); ":"%char;
        digit_char (n mod 60 / 10); digit_char (n mod 60 mod 10); "."%char;
        "0"%char; "0"%char; "]"%char ].
Proof.
  intros Hn. apply String.eqb_eq.
  apply (forall_below
           (fun n => String.eqb (format_timestamp_lrc (inject_Z n))
              (string_of_list_ascii
                 [ "["%char; digit_char (n / 60 / 10); digit_char (n / 60 mod 10);
                   ":"%char; digit_char (n mod 60 / 10);
                   digit_char (n mod 60 mod 10); "."%char;
                   "0"%char; "0"%char; "]"%char ])) 6000).
  - vm_compute. reflexivity.
  - exact Hn.
Qed.

Lemma whole_seconds_are_exact_witness :
  format_timestamp_lrc (inject_Z 3599) = "[59:59.00]".
Proof.
  assert (Hn : (0 <= 3599 < 6000)%Z) by lia.
  exact (whole_seconds_are_exact 3599 Hn).
Defined.

Lemma round_half_even_monotone (p q : Q) :
  (p <= q)%Q -> (PyStr.round_half_even p <= PyStr.round_half_even q)%Z.
Proof.
  intros Hpq.
  pose proof (Qfloor_resp_le _ _ Hpq) as Hf.
  pose proof (round_half_even_bounds p) as [P0 P1].
  pose proof (round_half_even_bounds q) as [Q0 Q1].
  destruct (Z.eq_dec (Qfloor p) (Qfloor q)) as [E | N]; [ | lia ].
  unfold PyStr.round_half_even. rewrite E.
  destruct (Qcompare_spec (p - inject_Z (Qfloor q))%Q (1 # 2)%Q) as [E1 | L1 | G1];
    destruct (Qcompare_spec (q - inject_Z (Qfloor q))%Q (1 # 2)%Q) as [E2 | L2 | G2];
    try destruct (Z.even (Qfloor q)); try lia; lra.
Qed.

(** What a timestamp below one hour reads back as. *)
Lemma parse_format_timestamp (s : Q) :
  (0 <= s)%Q -> (s < 3600)%Q ->
  exists seconds : Q,
    parse_timestamp (format_timestamp_lrc s) = Some (floordiv60 s, seconds)
    /\ (seconds
        == inject_Z (PyStr.round_half_even (mod60 s * inject_Z 100)) * (1 # 100))%Q.
Proof.
  intros H0 H2.
  pose proof (format_timestamp_lrc_shape s H0 H2) as Hs. cbv zeta in Hs.
  pose proof (hundredths_range s) as Hh.
  pose proof (floordiv60_spec s) as [A B].
  set (m := floordiv60 s) in *.
  set (h := PyStr.round_half_even (mod60 s * inject_Z 100)) in *.
  assert (Hm : (0 <= m < 60)%Z).
  { change (inject_Z 60) with 60%Q in A, B. split.
    - apply Z.lt_succ_r. rewrite Zlt_Qlt. unfold Z.succ.
      rewrite inject_Z_plus. change (inject_Z 0) with 0%Q.
      change (inject_Z 1) with 1%Q. lra.
    - rewrite Zlt_Qlt. change (inject_Z 60) with 60%Q. lra. }
  assert (Hdig : timestamp_digits (format_timestamp_lrc s)
                 = Some (digit_char (m / 10), digit_char (m mod 10),
                         digit_char (h / 1000), digit_char (h / 100 mod 10),
                         digit_char (h / 10 mod 10), digit_char (h mod 10))).
  { rewrite Hs. apply timestamp_digits_of_shape.
    - split; [apply Z.div_pos; lia | apply Z.div_lt_upper_bound; lia].
    - apply Z.mod_pos_bound; lia.
    - split; [apply Z.div_pos; lia | apply Z.div_lt_upper_bound; lia].
    - apply Z.mod_pos_bound; lia.
    - apply Z.mod_pos_bound; lia.
    - apply Z.mod_pos_bound; lia. }
  unfold parse_timestamp. rewrite Hdig.
  assert (D1 : digit_value (digit_char (m / 10)) = (m / 10)%Z).
  { apply digit_char_ok. split; [apply Z.div_pos; lia | apply Z.div_lt_upper_bound; lia]. }
  assert (D2 : digit_value (digit_char (m mod 10)) = (m mod 10)%Z).
  { apply digit_char_ok. apply Z.mod_pos_bound; lia. }
  assert (D3 : digit_value (digit_char (h / 1000)) = (h / 1000)%Z).
  { apply digit_char_ok. split; [apply Z.div_pos; lia | apply Z.div_lt_upper_bound; lia]. }
  assert (D4 : digit_value (digit_char (h / 100 mod 10)) = (h / 100 mod 10)%Z).
  { apply digit_char_ok. apply Z.mod_pos_bound; lia. }
  assert (D5 : digit_value (digit_char (h / 10 mod 10)) = (h / 10 mod 10)%Z).
  { apply digit_char_ok. apply Z.mod_pos_bound; lia. }
  assert (D6 : digit_value (digit_char (h mod 10)) = (h mod 10)%Z).
  { apply digit_char_ok. apply Z.mod_pos_bound; lia. }
  rewrite D1, D2, D3, D4, D5, D6.
  replace (10 * (m / 10) + m mod 10)%Z with m
    by (Z.div_mod_to_equations; lia).
  replace (10 * (h / 1000) + h / 100 mod 10)%Z with (h / 100)%Z
    by (Z.div_mod_to_equations; lia).
  replace (10 * (h / 10 mod 10) + h mod 10)%Z with (h mod 100)%Z
    by (Z.div_mod_to_equations; lia).
  eexists. split; [reflexivity | ].
  rewrite (Z.div_mod h 100) at 3 by lia.
  rewrite inject_Z_plus, inject_Z_mult.
  change (inject_Z 100) with 100%Q.
  set (a := inject_Z (h / 100)). set (b := inject_Z (h mod 100)).
  field.
Qed.

(** X3. Below one hour the timestamps are monotone: of two numbers of
    seconds, the later one never gets a timestamp that reads earlier. *)
Theorem timestamps_are_monotone (s t : Q) :
  (0 <= s)%Q -> (s <= t)%Q -> (t < 3600)%Q ->
  exists (m1 m2 : Z) (sec1 sec2 : Q),
    parse_timestamp (format_timestamp_lrc s) = Some (m1, sec1)
    /\ parse_timestamp (format_timestamp_lrc t) = Some (m2, sec2)
    /\ (inject_Z m1 * 60 + sec1 <= inject_Z m2 * 60 + sec2)%Q.
Proof.
  intros H0 Hst Ht.
  assert (Hs : (s < 3600)%Q) by lra.
  assert (H0t : (0 <= t)%Q) by lra.
  destruct (parse_format_timestamp s H0 Hs) as (sec1 & P1 & E1).
  destruct (parse_format_timestamp t H0t Ht) as (sec2 & P2 & E2).
  exists (floordiv60 s), (floordiv60 t), sec1, sec2.
  split; [exact P1 | split; [exact P2 | ] ].
  pose proof (hundredths_range s) as Hhs.
  pose proof (hundredths_range t) as Hht.
  pose proof (mod60_decompose s) as Ds.
  pose proof (mod60_decompose t) as Dt.
  set (hs := PyStr.round_half_even (mod60 s * inject_Z 100)) in *.
  set (ht := PyStr.round_half_even (mod60 t * inject_Z 100)) in *.
  assert (Hm : (floordiv60 s <= floordiv60 t)%Z).
  { unfold floordiv60. apply Qfloor_resp_le.
    unfold Qdiv. change (/ inject_Z 60)%Q with (1 # 60)%Q. lra. }
  assert (Bs : (0 <= inject_Z hs <= 6000)%Q).
  { change 0%Q with (inject_Z 0). change 6000%Q with (inject_Z 6000).
    rewrite <- !Zle_Qle. lia. }
  assert (Bt : (0 <= inject_Z ht <= 6000)%Q).
  { change 0%Q with (inject_Z 0). change 6000%Q with (inject_Z 6000).
    rewrite <- !Zle_Qle. lia. }
  destruct (Z.eq_dec (floordiv60 s) (floordiv60 t)) as [E | N].
  - assert (Hh : (hs <= ht)%Z).
    { apply round_half_even_monotone. rewrite E in Ds.
      change (inject_Z 60) with 60%Q in *. change (inject_Z 100) with 100%Q.
      set (rs := mod60 s) in *. set (rt := mod60 t) in *. clearbody rs rt. lra. }
    rewrite Zle_Qle in Hh. rewrite E. lra.
  - assert (Hlt : (floordiv60 s + 1 <= floordiv60 t)%Z) by lia.
    rewrite Zle_Qle, inject_Z_plus in Hlt. change (inject_Z 1) with 1%Q in Hlt.
    lra.
Qed.

Lemma timestamps_are_monotone_witness :
  exists (m1 m2 : Z) (sec1 sec2 : Q),
    parse_timestamp (format_timestamp_lrc double_59_999) = Some (m1, sec1)
    /\ parse_timestamp (format_timestamp_lrc 60) = Some (m2, sec2)
    /\ (inject_Z m1 * 60 + sec1 <= inject_Z m2 * 60 + sec2)%Q.
Proof.
  apply (timestamps_are_monotone double_59_999 60); vm_compute;
    first [discriminate | reflexivity].
Defined.

(** ** [is_audio_file] and the file names *)

Lemma lower_char_dot c : lower_char c = "."%char -> c = "."%char.
Proof.
  destruct c as [[] [] [] [] [] [] [] []]; cbn; intros E;
    first [reflexivity | discriminate E].
Qed.

Lemma length_map_chars f s : String.length (map_chars f s) = String.length s.
Proof. induction s as [ | c s IH]; cbn; [ | rewrite IH ]; reflexivity. Qed.

(** X4. An extension that [is_audio_file] accepts starts with its dot and
    has four or five characters: [mp3] without the dot is rejected. *)
Theorem audio_extension_has_its_dot (ext : string) :
  is_audio_file ext = true ->
  startswith "." ext = true /\ 4 <= String.length ext <= 5.
Proof.
  unfold is_audio_file. rewrite str_in_In. intros Hin.
  assert (Hl : startswith "." (lower ext) = true /\ 4 <= String.length (lower ext) <= 5).
  { unfold audio_extensions in Hin. cbn [In] in Hin.
    repeat (destruct Hin as [<- | Hin]; [split; [reflexivity | cbn; lia] | ]).
    contradiction. }
  destruct Hl as [Hdot Hlen].
  unfold lower in *. rewrite length_map_chars in Hlen. split; [ | exact Hlen ].
  destruct ext as [ | c r]; [discriminate Hdot | ].
  unfold startswith in *. cbn [map_chars prefix] in Hdot. cbn [prefix].
  destruct (ascii_dec "." (lower_char c)) as [E | N]; [ | discriminate Hdot ].
  symmetry in E. apply lower_char_dot in E. subst c.
  destruct (ascii_dec "." ".") as [_ | N]; [now destruct r | now contradiction N].
Qed.

Lemma audio_extension_has_its_dot_witness :
  startswith "." ".OPUS" = true /\ 4 <= String.length ".OPUS" <= 5.
Proof.
  assert (Ha : is_audio_file ".OPUS" = true) by reflexivity.
  exact (audio_extension_has_its_dot ".OPUS" Ha).
Defined.

(** *** Slashes *)

Lemma contains_char_append c a b :
  contains_char c (a ++ b) = contains_char c a || contains_char c b.
Proof.
  induction a as [ | d a IH]; cbn; [reflexivity | ].
  rewrite IH. now rewrite orb_assoc.
Qed.

Lemma contains_char_take c n s :
  contains_char c s = false -> contains_char c (take n s) = false.
Proof.
  revert s. induction n as [ | n IH]; intros s Hs; destruct s as [ | d s]; cbn in *;
    try reflexivity.
  apply orb_false_iff in Hs. destruct Hs as [Hd Hs]. rewrite Hd. cbn. now apply IH.
Qed.

(** Either [c] does not occur in [s], or the part of [s] after the index
    found is free of [c]. *)
Lemma rfind_from_last_occurrence c s i last :
  (rfind_from c s i last = last /\ contains_char c s = false)
  \/ ((i <= rfind_from c s i last)%Z
      /\ contains_char c (drop (Z.to_nat (rfind_from c s i last - i + 1)) s) = false).
Proof.
  revert i last. induction s as [ | d s IH]; intros i last; cbn [rfind_from contains_char].
  - left. now split.
  - destruct (IH (i + 1)%Z (if Ascii.eqb d c then i else last)) as [[E Hs] | [Hle Hs]].
    + rewrite E. destruct (Ascii.eqb d c) eqn:Hd.
      * right. split; [lia | ].
        replace (Z.to_nat (i - i + 1)) with 1 by lia. cbn. exact Hs.
      * left. now split.
    + right. split; [lia | ].
      set (r := rfind_from c s (i + 1) (if Ascii.eqb d c then i else last)) in *.
      replace (Z.to_nat (r - i + 1)) with (S (Z.to_nat (r - (i + 1) + 1))) by lia.
      cbn. exact Hs.
Qed.

Lemma basename_no_slash p : contains_char "/" (os_path.basename p) = false.
Proof.
  unfold os_path.basename, rfind.
  destruct (rfind_from_last_occurrence "/" p 0 (-1)) as [[E Hp] | [Hle Hp]].
  - rewrite E. cbn. exact Hp.
  - replace (rfind_from "/" p 0 (-1) + 1)%Z with (rfind_from "/" p 0 (-1) - 0 + 1)%Z by lia.
    exact Hp.
Qed.

Lemma splitext_no_slash n :
  contains_char "/" n = false -> contains_char "/" (fst (os_path.splitext n)) = false.
Proof.
  intros Hn. unfold os_path.splitext.
  destruct ((rfind "." n >? rfind "/" n)%Z && _); cbn [fst].
  - now apply contains_char_take.
  - exact Hn.
Qed.

Lemma get_output_filename_no_slash input_filename :
  contains_char "/" (get_output_filename input_filename) = false.
Proof.
  unfold get_output_filename. rewrite contains_char_append.
  rewrite splitext_no_slash by apply basename_no_slash. reflexivity.
Qed.

(** X5. [get_output_filename] returns a bare file name, whatever its
    argument: no slash in it, so that it is its own [basename] and its
    [dirname] is empty. *)
Theorem get_output_filename_is_bare (input_filename : string) :
  contains_char "/" (get_output_filename input_filename) = false
  /\ os_path.basename (get_output_filename input_filename)
     = get_output_filename input_filename
  /\ os_path.dirname (get_output_filename input_filename) = "".
Proof.
  pose proof (get_output_filename_no_slash input_filename) as H.
  split; [exact H | split].
  - now apply basename_plain.
  - unfold os_path.dirname, rfind. rewrite rfind_from_absent by exact H. reflexivity.
Qed.

(** *** The last dot of a file name *)

Lemma rfind_from_found c s i last :
  contains_char c s = true -> rfind_from c s i last = (i + rfind c s)%Z.
Proof.
  unfold rfind. revert i last.
  induction s as [ | d s IH]; intros i last Hc; cbn [rfind_from contains_char] in *.
  - discriminate Hc.
  - destruct (contains_char c s) eqn:Hs.
    + rewrite (IH (i + 1)%Z) by reflexivity.
      rewrite (IH (0 + 1)%Z) by reflexivity. lia.
    + rewrite !rfind_from_absent by exact Hs.
      rewrite orb_false_r in Hc. rewrite Hc. lia.
Qed.

Lemma rfind_found_range c s :
  contains_char c s = true -> (0 <= rfind c s < Z.of_nat (String.length s))%Z.
Proof.
  intros Hc. unfold rfind.
  destruct (rfind_from_last_occurrence c s 0 (-1)) as [[_ Hn] | [Hle _]].
  - rewrite Hn in Hc. discriminate Hc.
  - destruct (rfind_from_range c s 0 (-1)) as [E | R]; lia.
Qed.

Lemma rfind_absent c s : contains_char c s = false -> rfind c s = (-1)%Z.
Proof. intros Hc. unfold rfind. now apply rfind_from_absent. Qed.

Lemma drop_drop n m s : drop n (drop m s) = drop (m + n) s.
Proof.
  revert s. induction m as [ | m IH]; intros s; cbn.
  - reflexivity.
  - destruct s as [ | c s]; [now destruct n | apply IH].
Qed.

Lemma append_assoc (a b c : string) : (a ++ b) ++ c = a ++ (b ++ c).
Proof. induction a as [ | d a IH]; cbn; [ | rewrite IH ]; reflexivity. Qed.

(** [splitext] of a file name that neither contains a slash nor starts with
    a dot: it splits at the last dot, if there is one. *)
Lemma splitext_plain_name c0 r :
  c0 <> "."%char -> contains_char "/" (String c0 r) = false ->
  os_path.splitext (String c0 r)
  = if (0 <? rfind "." (String c0 r))%Z
    then (take (Z.to_nat (rfind "." (String c0 r))) (String c0 r),
          drop (Z.to_nat (rfind "." (String c0 r))) (String c0 r))
    else (String c0 r, "").
Proof.
  intros Hc0 Hslash. set (n := String c0 r) in *.
  unfold os_path.splitext. rewrite (rfind_absent "/" n Hslash).
  assert (Hi : rfind "." n = (-1)%Z \/ (1 <= rfind "." n)%Z).
  { unfold rfind, n. cbn [rfind_from].
    assert (E : Ascii.eqb c0 "." = false) by (apply Ascii.eqb_neq; exact Hc0).
    rewrite E.
    destruct (rfind_from_range "." r (0 + 1) (-1)) as [-> | R]; [now left | right; lia]. }
  destruct Hi as [E | Hpos].
  - rewrite E. reflexivity.
  - replace (0 <? rfind "." n)%Z with true by (symmetry; apply Z.ltb_lt; lia).
    replace (rfind "." n >? -1)%Z with true by (symmetry; apply Z.gtb_lt; lia).
    cbn [andb]. change (-1 + 1)%Z with 0%Z. cbn [Z.to_nat drop].
    replace (Z.to_nat (rfind "." n - 0)) with (S (Z.to_nat (rfind "." n - 1))) by lia.
    unfold n at 1. cbn [os_path.has_non_dot].
    assert (E : Ascii.eqb c0 "." = false) by (apply Ascii.eqb_neq; exact Hc0).
    rewrite E. reflexivity.
Qed.

Lemma name_stem_take n :
  pathlib.name_suffix n <> "" ->
  pathlib.name_stem n = take (Z.to_nat (rfind "." n)) n.
Proof.
  intros Hne. unfold pathlib.name_stem.
  destruct (name_suffix_index n Hne) as [Hi ->].
  rewrite length_drop. f_equal. lia.
Qed.

(** X6. For a file whose name has a suffix and does not start with a dot,
    [get_output_filename] gives the name of the destination that the batch
    walker derives with [with_suffix('.lrc')], with or without a directory
    in front of the name. *)
Theorem get_output_filename_agrees_with_walker (directory : string)
    (file_path : pathlib.Path) :
  contains_char "/" (pathlib.name file_path) = false ->
  startswith "." (pathlib.name file_path) = false ->
  pathlib.suffix file_path <> "" ->
  pathlib.with_suffix file_path ".lrc" = Ret (lrc_of file_path)
  /\ get_output_filename (directory ++ "/" ++ pathlib.name file_path)
     = pathlib.name (lrc_of file_path)
  /\ get_output_filename (pathlib.name file_path) = pathlib.name (lrc_of file_path).
Proof.
  intros Hslash Hdot Hne.
  assert (Hname : get_output_filename (pathlib.name file_path)
                  = pathlib.name (lrc_of file_path)).
  { change (pathlib.name (lrc_of file_path))
      with (last (removelast (pathlib.parts file_path)
                    ++ [pathlib.stem file_path ++ ".lrc"]) "").
    rewrite last_last.
    unfold get_output_filename. rewrite basename_plain by exact Hslash.
    unfold pathlib.stem, pathlib.suffix in *.
    destruct (pathlib.name file_path) as [ | c0 r] eqn:En.
    { now contradiction Hne. }
    rewrite splitext_plain_name; [ | | exact Hslash ].
    - destruct (name_suffix_index _ Hne) as [[Hi _] _].
      replace (0 <? rfind "." (String c0 r))%Z with true
        by (symmetry; apply Z.ltb_lt; lia).
      cbn [fst]. now rewrite name_stem_take.
    - intros ->. unfold startswith in Hdot. cbn in Hdot.
      destruct r; discriminate Hdot. }
  split; [now apply with_suffix_lrc | split; [ | exact Hname ] ].
  rewrite get_output_filename_drops_directory by exact Hslash. exact Hname.
Qed.

Lemma get_output_filename_agrees_with_walker_witness :
  pathlib.with_suffix (pathlib.parse "/a/b/v1.2.mp3") ".lrc"
  = Ret (pathlib.parse "/a/b/v1.2.lrc")
  /\ get_output_filename ("/a/b" ++ "/" ++ "v1.2.mp3") = "v1.2.lrc"
  /\ get_output_filename "v1.2.mp3" = "v1.2.lrc".
Proof.
  assert (Hne : pathlib.suffix (pathlib.parse "/a/b/v1.2.mp3") <> "")
    by (vm_compute; discriminate).
  exact (get_output_filename_agrees_with_walker "/a/b" (pathlib.parse "/a/b/v1.2.mp3")
           eq_refl eq_refl Hne).
Defined.

(** *** The extension that each mode looks at *)

Lemma lower_char_idempotent c : lower_char (lower_char c) = lower_char c.
Proof. destruct c as [[] [] [] [] [] [] [] []]; reflexivity. Qed.

Lemma lower_idempotent s : lower (lower s) = lower s.
Proof.
  unfold lower. induction s as [ | c s IH]; cbn; [reflexivity | ].
  now rewrite lower_char_idempotent, IH.
Qed.

Lemma rfind_join_slash d n :
  contains_char "/" n = false ->
  rfind "/" (d ++ "/" ++ n) = Z.of_nat (String.length d).
Proof.
  intros Hn. unfold rfind. rewrite rfind_from_append.
  cbn [append rfind_from Ascii.eqb Bool.eqb].
  rewrite rfind_from_absent by exact Hn. lia.
Qed.

Lemma rfind_join_dot d n :
  rfind "." (d ++ "/" ++ n)
  = if contains_char "." n
    then (Z.of_nat (String.length d) + 1 + rfind "." n)%Z
    else rfind "." d.
Proof.
  unfold rfind at 1. rewrite rfind_from_append.
  cbn [append rfind_from Ascii.eqb Bool.eqb].
  destruct (contains_char "." n) eqn:Hn.
  - rewrite rfind_from_found by exact Hn. lia.
  - rewrite rfind_from_absent by exact Hn. reflexivity.
Qed.

Lemma drop_join d n : drop (String.length d + 1) (d ++ "/" ++ n) = n.
Proof.
  replace (String.length d + 1) with (String.length (d ++ "/"))
    by (rewrite length_append; reflexivity).
  rewrite <- append_assoc. apply drop_append.
Qed.

(** The extension of a path is that of its last component. *)
Lemma splitext_join d n :
  contains_char "/" n = false ->
  snd (os_path.splitext (d ++ "/" ++ n)) = snd (os_path.splitext n).
Proof.
  intros Hn. unfold os_path.splitext.
  rewrite (rfind_join_slash d n Hn), rfind_join_dot, (rfind_absent "/" n Hn).
  destruct (contains_char "." n) eqn:Hdot.
  - pose proof (rfind_found_range "." n Hdot) as Hr.
    replace (Z.of_nat (String.length d) + 1 + rfind "." n >? Z.of_nat (String.length d))%Z
      with true by (symmetry; apply Z.gtb_lt; lia).
    replace (rfind "." n >? -1)%Z with true by (symmetry; apply Z.gtb_lt; lia).
    cbn [andb]. change (-1 + 1)%Z with 0%Z. cbn [Z.to_nat drop].
    replace (Z.to_nat (Z.of_nat (String.length d) + 1)) with (String.length d + 1) by lia.
    rewrite drop_join.
    replace (Z.to_nat (Z.of_nat (String.length d) + 1 + rfind "." n
                       - (Z.of_nat (String.length d) + 1)))
      with (Z.to_nat (rfind "." n - 0)) by lia.
    destruct (os_path.has_non_dot n (Z.to_nat (rfind "." n - 0))); cbn [snd].
    + replace (Z.to_nat (Z.of_nat (String.length d) + 1 + rfind "." n))
        with ((String.length d + 1) + Z.to_nat (rfind "." n)) by lia.
      rewrite <- drop_drop, drop_join. reflexivity.
    + reflexivity.
  - rewrite (rfind_absent "." n Hdot).
    assert (Hd : (rfind "." d < Z.of_nat (String.length d))%Z).
    { unfold rfind. destruct (rfind_from_range "." d 0 (-1)) as [-> | R]; lia. }
    replace (rfind "." d >? Z.of_nat (String.length d))%Z with false
      by (symmetry; rewrite Z.gtb_ltb; apply Z.ltb_ge; lia).
    reflexivity.
Qed.

(** X7. The two modes look at the extension in two ways,
    [os.path.splitext(path)[1]] in single-file mode and [Path.suffix] in the
    batch walker; for a file name that does not start with a dot they
    classify alike. *)
Theorem both_modes_classify_alike (directory name : string) :
  contains_char "/" name = false ->
  startswith "." name = false ->
  is_audio_file (snd (os_path.splitext (directory ++ "/" ++ name)))
  = is_audio_file (lower (pathlib.name_suffix name))
  /\ is_audio_file (snd (os_path.splitext name))
     = is_audio_file (lower (pathlib.name_suffix name)).
Proof.
  intros Hslash Hdot.
  assert (Hplain : is_audio_file (snd (os_path.splitext name))
                   = is_audio_file (lower (pathlib.name_suffix name))).
  { destruct name as [ | c0 r].
    { reflexivity. }
    assert (Hc0 : c0 <> "."%char).
    { intros ->. unfold startswith in Hdot. cbn in Hdot. destruct r; discriminate Hdot. }
    rewrite (splitext_plain_name c0 r Hc0 Hslash).
    unfold pathlib.name_suffix. set (n := String c0 r) in *.
    destruct (0 <? rfind "." n)%Z eqn:Hpos; cbn [andb snd]; [ | reflexivity ].
    destruct (rfind "." n <? Z.of_nat (String.length n) - 1)%Z eqn:Hlast.
    - unfold is_audio_file. now rewrite lower_idempotent.
    - apply Z.ltb_lt in Hpos. apply Z.ltb_ge in Hlast.
      assert (Hc : contains_char "." n = true).
      { destruct (contains_char "." n) eqn:E; [reflexivity | ].
        rewrite (rfind_absent "." n E) in Hpos. lia. }
      pose proof (rfind_found_range "." n Hc) as Hr.
      assert (Hlen : String.length (drop (Z.to_nat (rfind "." n)) n) = 1).
      { rewrite length_drop. lia. }
      destruct (drop (Z.to_nat (rfind "." n)) n) as [ | x [ | y t]]; try discriminate Hlen.
      unfold is_audio_file. cbn [lower map_chars].
      destruct (str_in (String (lower_char x) "") audio_extensions) eqn:E; [ | reflexivity ].
      apply str_in_In in E. unfold audio_extensions in E. cbn [In] in E.
      repeat (destruct E as [E | E]; [discriminate E | ]). contradiction. }
  split; [ | exact Hplain ].
  rewrite splitext_join by exact Hslash. exact Hplain.
Qed.

Lemma both_modes_classify_alike_witness :
  is_audio_file (snd (os_path.splitext ("/music" ++ "/" ++ "take.1.FLAC")))
  = is_audio_file (lower (pathlib.name_suffix "take.1.FLAC"))
  /\ is_audio_file (snd (os_path.splitext "take.1.FLAC"))
     = is_audio_file (lower (pathlib.name_suffix "take.1.FLAC")).
Proof.
  exact (both_modes_classify_alike "/music" "take.1.FLAC" eq_refl eq_refl).
Defined.

(** ** Output directories and discovery *)

Section EntryFacts.

Context {World : Type} `{Host World} `{HostDirs World}.

Lemma dirname_bare p : contains_char "/" p = false -> os_path.dirname p = "".
Proof.
  intros Hp. unfold os_path.dirname, rfind. now rewrite rfind_from_absent by exact Hp.
Qed.

(** X8. [ensure_output_directory] does nothing for a path without a
    directory part, in particular for every name that [get_output_filename]
    returns, and nothing when the directory exists; otherwise its result is
    that of [os.makedirs] on the directory, an exception included. *)
Theorem ensure_output_directory_leaves_alone :
  (forall (input_filename : string) (w : World),
     ensure_output_directory (get_output_filename input_filename) w = (w, Ret tt))
  /\ (forall (output_path : string) (w : World),
        contains_char "/" output_path = false
        \/ os_path_exists w (os_path.dirname output_path) = true ->
        ensure_output_directory output_path w = (w, Ret tt))
  /\ (forall (output_path : string) (w : World),
        os_path.dirname output_path <> "" ->
        os_path_exists w (os_path.dirname output_path) = false ->
        ensure_output_directory output_path w
        = os_makedirs w (os_path.dirname output_path)).
Proof.
  assert (Hbare : forall (output_path : string) (w : World),
             contains_char "/" output_path = false ->
             ensure_output_directory output_path w = (w, Ret tt)).
  { intros output_path w Hp. unfold ensure_output_directory.
    now rewrite dirname_bare by exact Hp. }
  split; [ | split ].
  - intros input_filename w. apply Hbare. apply get_output_filename_no_slash.
  - intros output_path w [Hp | Hex]; [now apply Hbare | ].
    unfold ensure_output_directory. rewrite Hex.
    now rewrite andb_false_r.
  - intros output_path w Hne Hex. unfold ensure_output_directory. rewrite Hex.
    destruct (String.eqb (os_path.dirname output_path) "") eqn:E;
      [apply String.eqb_eq in E; contradiction | reflexivity].
Qed.

(** *** Discovery *)

Lemma is_audio_path_suffix (w : World) (file_path : pathlib.Path) :
  is_audio_path w file_path = true ->
  is_audio_file (lower (pathlib.suffix file_path)) = true.
Proof.
  unfold is_audio_path. intros Ha.
  destruct (path_is_file w file_path) as [is_file | e]; [ | discriminate Ha ].
  apply andb_true_iff in Ha. now destruct Ha.
Qed.

Lemma lrc_of_audio (w : World) (file_path : pathlib.Path) :
  is_audio_path w file_path = true ->
  pathlib.with_suffix file_path ".lrc" = Ret (lrc_of file_path).
Proof.
  intros Ha. apply is_audio_path_suffix in Ha.
  apply with_suffix_lrc. now apply audio_suffix_nonempty.
Qed.

(** The loop of [find_audio_files] over a listing. *)
Lemma collect_audio_files (files : list pathlib.Path) (st : St World) :
  collect files
    (fun file_path =>
       bind (ask (fun w => path_is_file w file_path)) (fun is_file =>
       if is_file && is_audio_file (lower (pathlib.suffix file_path))
       then bind (lift (pathlib.with_suffix file_path ".lrc")) (fun lrc_path =>
            ret (Some (file_path, lrc_path)))
       else ret None)) st
  = (st,
     match first_is_file_error (world st) files with
     | None =>
         Ret (map (fun p => (p, lrc_of p)) (filter (is_audio_path (world st)) files))
     | Some e => Raise e
     end).
Proof.
  induction files as [ | x r IH]; [reflexivity | ].
  cbn [collect first_is_file_error filter]. unfold bind at 1. unfold bind at 1.
  unfold ask at 1.
  pose proof (lrc_of_audio (world st) x) as Hlrc. unfold is_audio_path at 1 in Hlrc.
  unfold is_audio_path at 1.
  destruct (path_is_file (world st) x) as [is_file | e]; [ | reflexivity ].
  cbn beta iota.
  destruct (is_file && is_audio_file (lower (pathlib.suffix x))).
  - unfold bind at 1. unfold lift in IH |- *. rewrite (Hlrc eq_refl). unfold ret at 1.
    unfold bind at 1. rewrite IH.
    destruct (first_is_file_error (world st) r); reflexivity.
  - unfold ret at 1. unfold bind at 1. rewrite IH.
    destruct (first_is_file_error (world st) r); reflexivity.
Qed.

(** How discovery ends on a listing: on the first exception of an
    [is_file], else on the exception that ends [glob], else with the
    tasks. *)
Lemma find_audio_files_spec directory recursive (st : St World) :
  find_audio_files directory recursive st
  = (st,
     let listing := path_glob (world st) (path_resolve (world st) directory)
                      (if recursive then "**/*" else "*") in
     match first_is_file_error (world st) (fst listing), snd listing with
     | Some e, _ => Raise e
     | None, Some e => Raise e
     | None, None =>
         Ret (map (fun p => (p, lrc_of p))
                  (filter (is_audio_path (world st)) (fst listing)))
     end).
Proof.
  unfold find_audio_files. unfold bind at 1 2. unfold gets at 1 2. cbv zeta.
  unfold bind at 1. rewrite collect_audio_files.
  destruct (first_is_file_error (world st)
              (fst (path_glob (world st) (path_resolve (world st) directory)
                      (if recursive then "**/*" else "*")))); [reflexivity | ].
  destruct (snd (path_glob (world st) (path_resolve (world st) directory)
                   (if recursive then "**/*" else "*"))); reflexivity.
Qed.

(** When no [is_file] raises, a path passes the test of [find_audio_files]
    exactly when [is_file] answers [True] and its suffix is an audio one. *)
Lemma is_audio_path_spec (w : World) (files : list pathlib.Path) file_path :
  first_is_file_error w files = None ->
  In file_path files ->
  exists is_file : bool,
    path_is_file w file_path = Ret is_file
    /\ is_audio_path w file_path
       = is_file && is_audio_file (lower (pathlib.suffix file_path)).
Proof.
  induction files as [ | x r IH]; intros Hnone Hin; [contradiction Hin | ].
  cbn [first_is_file_error] in Hnone.
  destruct (path_is_file w x) as [b | e] eqn:Hx; [ | discriminate Hnone ].
  destruct Hin as [-> | Hin]; [ | now apply IH ].
  exists b. split; [exact Hx | ]. unfold is_audio_path. now rewrite Hx.
Qed.

(** X9. Discovery is a filter of the listing, as long as nothing raises:
    when every [is_file] returns on the paths that [glob] yields and [glob]
    ends without an exception, the audio paths of the tasks are, in the
    order of the listing, the paths for which [is_file] answered [True] and
    whose suffix is an audio one, each with its [with_suffix('.lrc')]; when
    an [is_file] raises, discovery raises the first such exception; when
    none does and [glob] ends on an exception, discovery raises that one.
    The state is not touched. *)
Theorem discovery_filters_the_listing (directory : string) (recursive : bool)
    (st : St World) :
  let listing := path_glob (world st) (path_resolve (world st) directory)
                   (if recursive then "**/*" else "*") in
  match first_is_file_error (world st) (fst listing), snd listing with
  | Some e, _ => find_audio_files directory recursive st = (st, Raise e)
  | None, Some e => find_audio_files directory recursive st = (st, Raise e)
  | None, None =>
      exists tasks : list (pathlib.Path * pathlib.Path),
        find_audio_files directory recursive st = (st, Ret tasks)
        /\ map fst tasks = filter (is_audio_path (world st)) (fst listing)
        /\ (forall file_path, In file_path (fst listing) ->
            exists is_file : bool,
              path_is_file (world st) file_path = Ret is_file
              /\ is_audio_path (world st) file_path
                 = is_file && is_audio_file (lower (pathlib.suffix file_path)))
        /\ Forall (fun t : pathlib.Path * pathlib.Path =>
                     pathlib.with_suffix (fst t) ".lrc" = Ret (snd t)) tasks
  end.
Proof.
  rewrite find_audio_files_spec. cbv zeta.
  destruct (path_glob (world st) (path_resolve (world st) directory)
              (if recursive then "**/*" else "*")) as [files stop]. cbn [fst snd].
  destruct (first_is_file_error (world st) files) as [e | ] eqn:Hnone; [reflexivity | ].
  destruct stop as [e | ]; [reflexivity | ].
  eexists. split; [reflexivity | split; [ | split ] ].
  - rewrite map_map. cbn [fst]. apply map_id.
  - intros file_path Hin. now apply (is_audio_path_spec _ files).
  - apply Forall_forall. intros [a l] Hin. apply in_map_iff in Hin.
    destruct Hin as (p & E & Hp). inversion E; subst. cbn [fst snd].
    apply filter_In in Hp. destruct Hp as [_ Ha]. now apply (lrc_of_audio (world st)).
Qed.

Lemma discovered_task directory recursive (st : St World) tasks audio lrc :
  snd (find_audio_files directory recursive st) = Ret tasks ->
  In (audio, lrc) tasks ->
  lrc = lrc_of audio /\ is_audio_path (world st) audio = true.
Proof.
  rewrite find_audio_files_spec. cbn [snd]. cbv zeta.
  destruct (path_glob (world st) (path_resolve (world st) directory)
              (if recursive then "**/*" else "*")) as [files stop]. cbn [fst snd].
  destruct (first_is_file_error (world st) files) as [e | ]; [discriminate | ].
  destruct stop as [e | ]; [discriminate | ].
  intros E Hin. inversion E; subst. apply in_map_iff in Hin.
  destruct Hin as (p & Ep & Hp). inversion Ep; subst.
  apply filter_In in Hp. now destruct Hp.
Qed.

Lemma lrc_of_suffix (file_path : pathlib.Path) :
  pathlib.suffix file_path <> "" ->
  pathlib.suffix (lrc_of file_path) = ".lrc"
  /\ pathlib.stem (lrc_of file_path) = pathlib.stem file_path
  /\ pathlib.parent (lrc_of file_path) = pathlib.parent file_path.
Proof.
  intros Hne.
  assert (Hpos : 0 < String.length (pathlib.stem file_path))
    by (apply name_stem_nonempty; exact Hne).
  destruct (name_suffix_lrc (pathlib.stem file_path) Hpos) as [Hs Ht].
  unfold pathlib.parent, pathlib.stem, pathlib.suffix, pathlib.name, lrc_of in *.
  cbn [pathlib.root pathlib.parts]. rewrite removelast_last, last_last.
  repeat split; assumption.
Qed.

(** X10. The destination of a discovered task has the suffix [.lrc], the
    stem and the directory of its audio file; it is not an audio file, and
    it is none of the audio files of the walk. *)
Theorem destinations_are_never_sources directory recursive (st : St World)
    tasks audio lrc :
  snd (find_audio_files directory recursive st) = Ret tasks ->
  In (audio, lrc) tasks ->
  pathlib.suffix lrc = ".lrc"
  /\ pathlib.stem lrc = pathlib.stem audio
  /\ pathlib.parent lrc = pathlib.parent audio
  /\ is_audio_file (lower (pathlib.suffix lrc)) = false
  /\ forall audio' lrc', In (audio', lrc') tasks -> lrc <> audio'.
Proof.
  intros Hfind Hin.
  destruct (discovered_task _ _ _ _ _ _ Hfind Hin) as [-> Ha].
  assert (Hne : pathlib.suffix audio <> "").
  { apply audio_suffix_nonempty. now apply (is_audio_path_suffix (world st)). }
  destruct (lrc_of_suffix audio Hne) as (Hs & Ht & Hp).
  split; [exact Hs | split; [exact Ht | split; [exact Hp | split ] ] ].
  - rewrite Hs. reflexivity.
  - intros audio' lrc' Hin' E.
    destruct (discovered_task _ _ _ _ _ _ Hfind Hin') as [_ Ha'].
    rewrite <- E in Ha'. apply is_audio_path_suffix in Ha'. rewrite Hs in Ha'.
    discriminate Ha'.
Qed.

(** *** Tasks with one destination *)

Lemma engine_calls_app (t u : list event) :
  engine_calls (t ++ u) = engine_calls t + engine_calls u.
Proof. unfold engine_calls. now rewrite filter_app, length_app. Qed.

(** X11. Two files of one directory with one stem have one destination;
    and when the engine has written that destination for the first of them,
    the second is skipped: one engine call for the two tasks. *)
Theorem same_stem_same_destination :
  (forall p q : pathlib.Path,
     pathlib.parent p = pathlib.parent q ->
     pathlib.stem p = pathlib.stem q ->
     lrc_of p = lrc_of q)
  /\ (forall (st : St World) total audio1 audio2 lrc language beam_size vad_filter
             w out,
        path_exists (world st) lrc = Ret false ->
        transcribe_to_lrc (world st) (generator (self st)) (pathlib.str audio1)
          (Some (pathlib.str lrc)) language beam_size vad_filter = (w, Ret out) ->
        path_exists w lrc = Ret true ->
        exists st' : St World,
          process_loop total [(1, (audio1, lrc)); (2, (audio2, lrc))] language
            beam_size vad_filter true st = (st', Ret tt)
          /\ self st' = record_outcome Skipped (record_outcome Succeeded (self st))
          /\ world st' = w
          /\ engine_calls (trace st') = engine_calls (trace st) + 1).
Proof.
  split.
  - intros p q Hp Hs. unfold lrc_of. unfold pathlib.parent in Hp.
    inversion Hp as [[Hr Hl]]. now rewrite Hr, Hl, Hs.
  - intros st total audio1 audio2 lrc language beam_size vad_filter w out
           Hnew Hrun Hthere.
    rewrite process_loop_cons.
    erewrite process_file_success; [ | exact Hnew | exact Hrun ].
    rewrite process_loop_cons.
    rewrite process_file_skip by exact Hthere.
    rewrite process_loop_nil. eexists. split; [reflexivity | ].
    cbn [after_skip announce self world trace]. repeat split.
    rewrite !engine_calls_app. cbn. lia.
Qed.

(** *** One task *)

(** X12. Without [skip_existing] no task is skipped: the engine is called
    once, whether the destination exists or not, and [skipped_count] stays. *)
Theorem force_never_skips (st : St World) audio_path lrc_path language beam_size
    vad_filter :
  exists (st' : St World) (r : result bool),
    process_file audio_path lrc_path language beam_size vad_filter false st = (st', r)
    /\ skipped_count (self st') = skipped_count (self st)
    /\ engine_calls (trace st') = engine_calls (trace st) + 1
    /\ world st'
       = fst (transcribe_to_lrc (world st) (generator (self st))
                (pathlib.str audio_path) (Some (pathlib.str lrc_path)) language
                beam_size vad_filter).
Proof.
  destruct (transcribe_to_lrc (world st) (generator (self st))
              (pathlib.str audio_path) (Some (pathlib.str lrc_path))
              language beam_size vad_filter) as [w [out | e]] eqn:Hrun.
  - eexists. eexists. split; [eapply process_file_success; [reflexivity | exact Hrun] | ].
    cbn [self world trace record_outcome skipped_count fst]. repeat split.
    rewrite !engine_calls_app. cbn. lia.
  - destruct (isinstance_Exception e) eqn:He.
    + eexists. eexists.
      split; [eapply process_file_failure; [reflexivity | exact Hrun | exact He] | ].
      cbn [self world trace record_outcome skipped_count fst]. repeat split.
      rewrite !engine_calls_app. cbn. lia.
    + eexists. eexists.
      split; [eapply process_file_escape; [reflexivity | exact Hrun | exact He] | ].
      cbn [self world trace record_outcome skipped_count fst]. repeat split.
      rewrite !engine_calls_app. cbn. lia.
Qed.

Lemma skip_check_raises skip_existing (w : World) lrc_path e :
  skip_check skip_existing w lrc_path = Raise e ->
  skip_existing = true /\ path_exists w lrc_path = Raise e.
Proof.
  unfold skip_check. destruct skip_existing; [now split | discriminate].
Qed.

(** Every way [process_file] can end, with what it did to the counters and
    how often it called the engine. *)
Lemma process_file_cases (st : St World) audio_path lrc_path language beam_size
    vad_filter skip_existing :
  exists (st' : St World) (r : result bool),
    process_file audio_path lrc_path language beam_size vad_filter skip_existing st
    = (st', r)
    /\ ((r = Ret false /\ self st' = record_outcome Skipped (self st)
         /\ world st' = world st
         /\ engine_calls (trace st') = engine_calls (trace st)
         /\ skip_check skip_existing (world st) lrc_path = Ret true)
        \/ (r = Ret true /\ self st' = record_outcome Succeeded (self st)
            /\ engine_calls (trace st') = engine_calls (trace st) + 1)
        \/ (r = Ret false /\ self st' = record_outcome Failed (self st)
            /\ engine_calls (trace st') = engine_calls (trace st) + 1)
        \/ (exists e, r = Raise e /\ isinstance_Exception e = false
            /\ self st' = self st
            /\ engine_calls (trace st') = engine_calls (trace st) + 1)
        \/ (exists e, r = Raise e /\ st' = st /\ skip_existing = true
            /\ path_exists (world st) lrc_path = Raise e)).
Proof.
  destruct (skip_check skip_existing (world st) lrc_path) as [[ | ] | e0] eqn:Hskip.
  - eexists. eexists. split; [apply process_file_skip; exact Hskip | ].
    left. cbn [after_skip self world trace]. repeat split.
    rewrite engine_calls_app. cbn. lia.
  - destruct (transcribe_to_lrc (world st) (generator (self st))
                (pathlib.str audio_path) (Some (pathlib.str lrc_path))
                language beam_size vad_filter) as [w [out | e]] eqn:Hrun.
    + eexists. eexists. split; [eapply process_file_success; eassumption | ].
      right. left. cbn [self trace]. repeat split.
      rewrite !engine_calls_app. cbn. lia.
    + destruct (isinstance_Exception e) eqn:He.
      * eexists. eexists. split; [eapply process_file_failure; eassumption | ].
        right. right. left. cbn [self trace]. repeat split.
        rewrite !engine_calls_app. cbn. lia.
      * eexists. eexists. split; [eapply process_file_escape; eassumption | ].
        right. right. right. left. exists e. cbn [self trace].
        repeat split; try assumption.
        rewrite !engine_calls_app. cbn. lia.
  - eexists. eexists. split; [eapply process_file_exists_raises; exact Hskip | ].
    right. right. right. right. exists e0.
    destruct (skip_check_raises _ _ _ _ Hskip) as [Hs Hex]. now repeat split.
Qed.

(** X13. [process_file] returns [True] exactly for a transcribed file; it
    returns [False] for a skipped and for a failed one; and an exception
    that leaves it has left the counters as they were, and is either not of
    class [Exception], or what [lrc_path.exists()], called before the [try]
    when [skip_existing] is set, has raised: nothing has happened then. *)
Theorem process_file_return_value (st : St World) audio_path lrc_path language
    beam_size vad_filter skip_existing :
  match process_file audio_path lrc_path language beam_size vad_filter
          skip_existing st with
  | (st', Ret true) =>
      self st' = record_outcome Succeeded (self st)
  | (st', Ret false) =>
      self st' = record_outcome Skipped (self st)
      \/ self st' = record_outcome Failed (self st)
  | (st', Raise e) =>
      self st' = self st
      /\ (isinstance_Exception e = false
          \/ (skip_existing = true
              /\ path_exists (world st) lrc_path = Raise e
              /\ st' = st))
  end.
Proof.
  destruct (process_file_cases st audio_path lrc_path language beam_size vad_filter
              skip_existing) as (st' & r & -> & Hcase).
  destruct Hcase as [(-> & Hs & _) | [(-> & Hs & _) | [(-> & Hs & _)
                    | [(e & -> & He & Hs & _) | (e & -> & -> & Hs & Hex)]]]].
  - now left.
  - exact Hs.
  - now right.
  - split; [exact Hs | now left].
  - split; [reflexivity | right; now repeat split].
Qed.


(** *** The loop and the walk *)

Lemma enumerate_In {A} (l : list A) start i (x : A) :
  In (i, x) (enumerate l start) -> In x l.
Proof.
  revert start. induction l as [ | y l IH]; intros start Hin; cbn in *.
  - contradiction.
  - destruct Hin as [E | Hin]; [inversion E; now left | right; eauto].
Qed.

Lemma process_loop_all_skipped total tasks language beam_size vad_filter :
  forall st : St World,
    (forall i audio lrc, In (i, (audio, lrc)) tasks ->
                         path_exists (world st) lrc = Ret true) ->
    exists st' : St World,
      process_loop total tasks language beam_size vad_filter true st = (st', Ret tt)
      /\ world st' = world st
      /\ processed_count (self st') = processed_count (self st)
      /\ error_count (self st') = error_count (self st)
      /\ skipped_count (self st') = skipped_count (self st) + List.length tasks
      /\ engine_calls (trace st') = engine_calls (trace st).
Proof.
  induction tasks as [ | [i [audio lrc]] rest IH]; intros st Hall.
  - exists st. rewrite process_loop_nil. cbn. repeat split. lia.
  - rewrite process_loop_cons.
    rewrite process_file_skip
      by (unfold skip_check; cbn [announce world]; apply (Hall i audio lrc); now left).
    destruct (IH (after_skip (announce st i total) lrc)) as (st' & Hrun & Hw & Hp & He & Hs & Hc).
    { intros j a l Hin. cbn [after_skip announce world]. apply (Hall j a l). now right. }
    exists st'. split; [exact Hrun | ].
    cbn [after_skip announce self world trace record_outcome processed_count
         skipped_count error_count] in *.
    rewrite !engine_calls_app in Hc. cbn in Hc |- *.
    repeat split; try assumption; lia.
Qed.

(** X14. When every destination is there, a walk with [skip_existing]
    skips every task: no engine call, the world unchanged, [skipped_count]
    raised by the number of tasks and the other two counters as before. *)
Theorem second_run_skips_everything (st : St World) directory recursive language
    beam_size vad_filter tasks :
  snd (find_audio_files directory recursive st) = Ret tasks ->
  (forall audio lrc, In (audio, lrc) tasks -> path_exists (world st) lrc = Ret true) ->
  exists st' : St World,
    process_directory directory recursive language beam_size vad_filter true st
    = (st', Ret tt)
    /\ world st' = world st
    /\ processed_count (self st') = processed_count (self st)
    /\ error_count (self st') = error_count (self st)
    /\ skipped_count (self st') = skipped_count (self st) + List.length tasks
    /\ engine_calls (trace st') = engine_calls (trace st).
Proof.
  intros Hfind Hall. apply find_audio_files_result in Hfind.
  destruct tasks as [ | t rest].
  - rewrite (process_directory_empty _ _ _ _ _ _ _ Hfind). eexists.
    split; [reflexivity | ]. cbn [self world trace List.length].
    rewrite engine_calls_app. cbn. repeat split; lia.
  - rewrite (process_directory_walk _ _ _ _ _ _ _ _ Hfind) by discriminate.
    destruct (process_loop_all_skipped (List.length (t :: rest))
                (enumerate (t :: rest) 1) language beam_size vad_filter
                (header st (List.length (t :: rest)) recursive language))
      as (st1 & Hrun & Hw & Hp & He & Hs & Hc).
    { intros i audio lrc Hin. apply enumerate_In in Hin.
      cbn [header world]. now apply (Hall audio lrc). }
    rewrite Hrun. eexists. split; [reflexivity | ].
    rewrite enumerate_length in Hs.
    unfold header in *. cbn [self world trace] in *.
    rewrite !engine_calls_app in *. 
    destruct (truthy language); cbn in Hc |- *; repeat split; try assumption; lia.
Qed.

(** The engine calls of the loop, and what can end it early: the engine,
    with an exception that is not of class [Exception], or [exists] on the
    destination of a task. *)
Lemma process_loop_calls total tasks language beam_size vad_filter skip_existing :
  forall (st st' : St World) r,
    process_loop total tasks language beam_size vad_filter skip_existing st = (st', r) ->
    match r with
    | Ret _ =>
        engine_calls (trace st') + processed_count (self st) + error_count (self st)
        = engine_calls (trace st) + processed_count (self st') + error_count (self st')
    | Raise e =>
        (isinstance_Exception e = false
         /\ engine_calls (trace st') + processed_count (self st) + error_count (self st)
            = engine_calls (trace st) + processed_count (self st')
              + error_count (self st') + 1)
        \/ (skip_existing = true
            /\ (exists i audio lrc,
                  In (i, (audio, lrc)) tasks /\ path_exists (world st') lrc = Raise e)
            /\ engine_calls (trace st') + processed_count (self st)
               + error_count (self st)
               = engine_calls (trace st) + processed_count (self st')
                 + error_count (self st'))
    end.
Proof.
  induction tasks as [ | [i [audio lrc]] rest IH]; intros st st' r Hrun.
  - rewrite process_loop_nil in Hrun. inversion Hrun; subst. lia.
  - rewrite process_loop_cons in Hrun.
    destruct (process_file_cases (announce st i total) audio lrc language beam_size
                vad_filter skip_existing) as (st1 & r1 & Hfile & Hcase).
    rewrite Hfile in Hrun.
    assert (Ha : engine_calls (trace (announce st i total)) = engine_calls (trace st)).
    { cbn [announce trace]. rewrite engine_calls_app. cbn. lia. }
    assert (Hnext : forall o,
               r1 = Ret o ->
               engine_calls (trace st1) + processed_count (self st)
               + error_count (self st)
               = engine_calls (trace st) + processed_count (self st1)
                 + error_count (self st1) ->
               match r with
               | Ret _ =>
                   engine_calls (trace st') + processed_count (self st)
                   + error_count (self st)
                   = engine_calls (trace st) + processed_count (self st')
                     + error_count (self st')
               | Raise e =>
                   (isinstance_Exception e = false
                    /\ engine_calls (trace st') + processed_count (self st)
                       + error_count (self st)
                       = engine_calls (trace st) + processed_count (self st')
                         + error_count (self st') + 1)
                   \/ (skip_existing = true
                       /\ (exists j a l,
                             In (j, (a, l)) ((i, (audio, lrc)) :: rest)
                             /\ path_exists (world st') l = Raise e)
                       /\ engine_calls (trace st') + processed_count (self st)
                          + error_count (self st)
                          = engine_calls (trace st) + processed_count (self st')
                            + error_count (self st'))
               end).
    { intros o -> Hone. specialize (IH _ _ _ Hrun). destruct r as [u | e].
      - lia.
      - destruct IH as [[He Hn] | (Hs & (j & a & l & Hin & Hex) & Hn)].
        + left. split; [exact He | lia].
        + right. split; [exact Hs | split; [ | lia ] ].
          exists j, a, l. split; [now right | exact Hex]. }
    cbn [announce self world] in Hcase. rewrite Ha in Hcase.
    destruct Hcase as [(E & Hs & _ & Hc & _) | [(E & Hs & Hc) | [(E & Hs & Hc)
                      | [(e & -> & He & Hs & Hc) | (e & -> & -> & Hs & Hex)]]]].
    + apply (Hnext _ E). rewrite Hs. cbn. lia.
    + apply (Hnext _ E). rewrite Hs. cbn. lia.
    + apply (Hnext _ E). rewrite Hs. cbn. lia.
    + inversion Hrun; subst. left. split; [exact He | ]. rewrite Hs. lia.
    + injection Hrun as <- <-. right. split; [exact Hs | split ].
      * exists i, audio, lrc. split; [now left | exact Hex].
      * rewrite Ha. cbn [announce self]. lia.
Qed.

(** X15. In a walk that returns, the engine has been called once for every
    task counted as processed or as an error, and not otherwise. *)
Theorem engine_called_once_per_attempt (st st' : St World) directory recursive
    language beam_size vad_filter skip_existing :
  process_directory directory recursive language beam_size vad_filter skip_existing st
  = (st', Ret tt) ->
  engine_calls (trace st') + processed_count (self st) + error_count (self st)
  = engine_calls (trace st) + processed_count (self st') + error_count (self st').
Proof.
  intros Hrun.
  destruct (find_audio_files directory recursive st) as [st0 [tasks | e]] eqn:Hfind.
  - assert (Hfind' : find_audio_files directory recursive st = (st, Ret tasks)).
    { apply find_audio_files_result. rewrite Hfind. reflexivity. }
    destruct tasks as [ | t rest].
    + rewrite (process_directory_empty _ _ _ _ _ _ _ Hfind') in Hrun.
      inversion Hrun; subst. cbn [self trace]. rewrite engine_calls_app. cbn. lia.
    + rewrite (process_directory_walk _ _ _ _ _ _ _ _ Hfind') in Hrun by discriminate.
      destruct (process_loop (List.length (t :: rest)) (enumerate (t :: rest) 1)
                  language beam_size vad_filter skip_existing
                  (header st (List.length (t :: rest)) recursive language))
        as [st1 [u | e]] eqn:Hloop; [ | discriminate Hrun ].
      apply process_loop_calls in Hloop. rename Hloop into Hn.
      inversion Hrun; subst. unfold header, statistics in *. cbn [self trace] in *.
      rewrite !engine_calls_app in *.
      destruct (truthy language); cbn in Hn |- *; lia.
  - unfold process_directory, bind at 1 in Hrun. rewrite Hfind in Hrun. discriminate Hrun.
Qed.



(** *** [main] *)

Lemma main_batch_mode (args : Args) (env : Env World) batch :
  truthy (arg_input args) = false ->
  arg_batch args = Some batch ->
  batch <> "" ->
  main args env = main_batch args batch env.
Proof.
  intros Hin Hb Hne. unfold main. rewrite Hin, Hb. cbn [truthy].
  destruct (String.eqb batch "") eqn:E; [apply String.eqb_eq in E; contradiction | ].
  reflexivity.
Qed.

Lemma main_single_mode (args : Args) (env : Env World) input :
  arg_input args = Some input ->
  input <> "" ->
  main args env = main_single args input env.
Proof.
  intros Hin Hne. unfold main. rewrite Hin. cbn [truthy].
  destruct (String.eqb input "") eqn:E; [apply String.eqb_eq in E; contradiction | ].
  reflexivity.
Qed.



(** X17. When [main] returns, it returns [None], 0 or 1, so that the exit
    status is 0 or 1; it returns [None] exactly when neither the input nor
    the batch argument is a non-empty string, and then it has done nothing. *)
Theorem main_return_values (args : Args) (env env' : Env World) (r : option Z) :
  main args env = (env', Ret r) ->
  (r = None \/ r = Some 0%Z \/ r = Some 1%Z)
  /\ (r = None <-> truthy (arg_input args) = false /\ truthy (arg_batch args) = false)
  /\ (r = None -> env' = env)
  /\ (exit_status r = 0%Z \/ exit_status r = 1%Z).
Proof.
  intros Hmain.
  assert (Hcases : (r = None /\ truthy (arg_input args) = false
                    /\ truthy (arg_batch args) = false /\ env' = env)
                   \/ ((r = Some 0%Z \/ r = Some 1%Z)
                       /\ (truthy (arg_input args) = true
                           \/ truthy (arg_batch args) = true))).
  { unfold main in Hmain.
    destruct (truthy (arg_input args)) eqn:Hin.
    - right. split; [ | now left ].
      unfold main_single in Hmain.
      destruct (negb (os_path_exists (env_world env) _)); [inversion Hmain; now right | ].
      destruct (negb (is_audio_file _)); [inversion Hmain; now right | ].
      destruct (generator_new _ _ _ _) as [w1 [g | e]]; [ | discriminate Hmain ].
      destruct (transcribe_to_lrc _ _ _ _ _ _ _) as [w2 [out | e]].
      + inversion Hmain. now left.
      + destruct (isinstance_Exception e); [inversion Hmain; now right | discriminate Hmain].
    - destruct (truthy (arg_batch args)) eqn:Hb.
      + right. split; [ | now right ].
        unfold main_batch in Hmain.
        destruct (negb (os_path_isdir (env_world env) _)); [inversion Hmain; now right | ].
        destruct (BatchProcessor_init _ _ _ _) as [env1 [processor | e]];
          [ | discriminate Hmain ].
        destruct (call_method _ _ _) as [[b' env2] [u | e]].
        * inversion Hmain. now left.
        * destruct (isinstance_Exception e); [inversion Hmain; now right | discriminate Hmain].
      + left. inversion Hmain. repeat split. }
  destruct Hcases as [(-> & Hin & Hb & ->) | ([-> | ->] & Hany)].
  - repeat split; auto.
  - repeat split; auto; try discriminate.
    intros [Hin Hb]. destruct Hany as [E | E]; rewrite E in *; discriminate.
  - repeat split; auto; try discriminate.
    intros [Hin Hb]. destruct Hany as [E | E]; rewrite E in *; discriminate.
Qed.

(** X18. In single-file mode a missing file or an unsupported extension
    ends [main] with 1 before the engine is constructed: one line is
    printed and the world is as it was. *)
Theorem single_mode_validates_first (args : Args) (env : Env World) input :
  arg_input args = Some input ->
  input <> "" ->
  os_path_exists (env_world env) input = false
  \/ is_audio_file (snd (os_path.splitext input)) = false ->
  main args env = (env_print (MainError input) env, Ret (Some 1%Z)).
Proof.
  intros Hin Hne Hbad. rewrite (main_single_mode args env input Hin Hne).
  unfold main_single.
  destruct (os_path_exists (env_world env) input) eqn:Hex; cbn [negb]; [ | reflexivity ].
  destruct Hbad as [Habs | Hext]; [discriminate Habs | ].
  rewrite Hext. reflexivity.
Qed.

(** X19. In single-file mode [main] returns 0 exactly when the file
    exists, its extension is accepted, the engine is constructed and the
    transcription returns. *)
Theorem single_mode_exit_0 (args : Args) (env : Env World) input :
  arg_input args = Some input ->
  input <> "" ->
  (snd (main args env) = Ret (Some 0%Z)
   <-> os_path_exists (env_world env) input = true
       /\ is_audio_file (snd (os_path.splitext input)) = true
       /\ exists w1 generator w2 output_file,
            generator_new (env_world env) (arg_model args) (arg_device args)
              (arg_compute_type args) = (w1, Ret generator)
            /\ transcribe_to_lrc w1 generator input (arg_output args)
                 (arg_language args) (arg_beam_size args) (arg_vad_filter args)
               = (w2, Ret output_file)).
Proof.
  intros Hin Hne. rewrite (main_single_mode args env input Hin Hne).
  unfold main_single.
  destruct (os_path_exists (env_world env) input) eqn:Hex; cbn [negb].
  2: { cbn [snd]. split; [discriminate | intros [E _]; discriminate E]. }
  destruct (is_audio_file (snd (os_path.splitext input))) eqn:Hext; cbn [negb].
  2: { cbn [snd]. split; [discriminate | intros (_ & E & _); discriminate E]. }
  destruct (generator_new (env_world env) (arg_model args) (arg_device args)
              (arg_compute_type args)) as [w1 [g | e]] eqn:Hg.
  2: { cbn [snd]. split; [discriminate | ].
       intros (_ & _ & w & g & w2 & out & E & _). discriminate E. }
  destruct (transcribe_to_lrc w1 g input (arg_output args) (arg_language args)
              (arg_beam_size args) (arg_vad_filter args)) as [w2 [out | e]] eqn:Hrun.
  - cbn [snd]. split; [ | reflexivity ].
    intros _. repeat split. exists w1, g, w2, out. now split.
  - split.
    + destruct (isinstance_Exception e); cbn [snd]; discriminate.
    + intros (_ & _ & w & g' & w2' & out & E & Hrun').
      inversion E; subst. rewrite Hrun in Hrun'. discriminate Hrun'.
Qed.

(** *** [batch_process.main] *)

(** X20. The two entry points.  On something that is not an existing
    directory [batch_process.main] leaves through [sys.exit(1)].  On a
    directory it runs the same walk as [main.py] in batch mode and ends in
    the same process state; where [main.py] turns the result into 0, or
    prints the message of an exception of class [Exception] and turns it
    into 1, [batch_process.main] returns, or lets the exception through. *)
Theorem two_entry_points (args : Args) (env : Env World) batch :
  truthy (arg_input args) = false ->
  arg_batch args = Some batch ->
  batch <> "" ->
  (os_path_exists (env_world env) batch = false
   \/ os_path_isdir (env_world env) batch = false ->
   batch_process_main (batch_args_of args batch) env
   = (env_print (MainError batch) env, Raise sys_exit_1))
  /\ (os_path_exists (env_world env) batch = true ->
      os_path_isdir (env_world env) batch = true ->
      forall env1 processor processor' env2 r,
        BatchProcessor_init (arg_model args) (arg_device args) (arg_compute_type args) env
        = (env1, Ret processor) ->
        call_method processor
          (process_directory batch (negb (arg_no_recursive args)) (arg_language args)
             (arg_beam_size args) (arg_vad_filter args) (negb (arg_force args))) env1
        = (processor', env2, r) ->
        batch_process_main (batch_args_of args batch) env = (env2, r)
        /\ match r with
           | Ret _ => main args env = (env2, Ret (Some 0%Z))
           | Raise e =>
               if isinstance_Exception e
               then main args env
                    = (env_print (MainError (exn_msg e)) env2, Ret (Some 1%Z))
               else main args env = (env2, Raise e)
           end).
Proof.
  intros Hin Hb Hne. rewrite (main_batch_mode args env batch Hin Hb Hne). split.
  - intros Hbad. unfold batch_process_main, batch_args_of. cbn.
    destruct (os_path_exists (env_world env) batch) eqn:Hex; cbn [negb]; [ | reflexivity ].
    destruct Hbad as [Habs | Hdir]; [discriminate Habs | ].
    rewrite Hdir. reflexivity.
  - intros Hex Hdir env1 processor processor' env2 r Hinit Hwalk. split.
    + unfold batch_process_main, batch_args_of. cbn.
      rewrite Hex, Hdir. cbn [negb]. rewrite Hinit, Hwalk. reflexivity.
    + unfold main_batch. rewrite Hdir. cbn [negb]. rewrite Hinit, Hwalk.
      destruct r as [u | e]; [reflexivity | ].
      destruct (isinstance_Exception e) eqn:He; reflexivity.
Qed.

(** X21. An exception that is not of class [Exception], such as
    [KeyboardInterrupt], raised by the engine for a task ends the loop
    there: the counters stay, the remaining tasks are not tried, and [main]
    lets the exception through instead of returning an exit code. *)
Theorem interrupt_stops_the_walk :
  (forall (st : St World) total i audio_path lrc_path rest language beam_size
          vad_filter skip_existing w e,
     skip_check skip_existing (world st) lrc_path = Ret false ->
     transcribe_to_lrc (world st) (generator (self st)) (pathlib.str audio_path)
       (Some (pathlib.str lrc_path)) language beam_size vad_filter = (w, Raise e) ->
     isinstance_Exception e = false ->
     process_loop total ((i, (audio_path, lrc_path)) :: rest) language beam_size
       vad_filter skip_existing st
     = (mkSt (self st) w
             (trace st ++ Progress i total :: attempt_trace audio_path lrc_path),
        Raise e))
  /\ (forall (args : Args) (env env1 env2 : Env World) batch processor processor' e,
        truthy (arg_input args) = false ->
        arg_batch args = Some batch ->
        batch <> "" ->
        os_path_isdir (env_world env) batch = true ->
        BatchProcessor_init (arg_model args) (arg_device args) (arg_compute_type args) env
        = (env1, Ret processor) ->
        call_method processor
          (process_directory batch (negb (arg_no_recursive args)) (arg_language args)
             (arg_beam_size args) (arg_vad_filter args) (negb (arg_force args))) env1
        = (processor', env2, Raise e) ->
        isinstance_Exception e = false ->
        main args env = (env2, Raise e)).
Proof.
  split.
  - intros st total i audio_path lrc_path rest language beam_size vad_filter
           skip_existing w e Hskip Hrun He.
    rewrite process_loop_cons.
    erewrite process_file_escape; [ | exact Hskip | exact Hrun | exact He ].
    cbn [announce self trace]. rewrite <- app_assoc. reflexivity.
  - intros args env env1 env2 batch processor processor' e Hin Hb Hne Hdir Hinit
           Hwalk He.
    rewrite (main_batch_mode args env batch Hin Hb Hne).
    unfold main_batch. rewrite Hdir. cbn [negb]. rewrite Hinit, Hwalk, He. reflexivity.
Qed.

End EntryFacts.

(** ** The further properties in the concrete world *)

Lemma seconds_field_60_exactly_witness :
  (59.995 <= mod60 double_59_999)%Q
  /\ format_timestamp_lrc double_59_999 = "[" ++ "00" ++ ":60.00]".
Proof.
  assert (Hr : (59.995 <= mod60 double_59_999)%Q) by (vm_compute; discriminate).
  split; [exact Hr | ].
  exact (proj1 (seconds_field_60_exactly double_59_999) Hr).
Defined.

Lemma ensure_output_directory_leaves_alone_witness :
  ensure_output_directory "/music/a.lrc" Demo.world_two_songs
  = (Demo.world_two_songs, Ret tt)
  /\ ensure_output_directory "/new/dir/a.lrc" Demo.world_two_songs
     = os_makedirs Demo.world_two_songs "/new/dir".
Proof.
  split.
  - exact (proj1 (proj2 ensure_output_directory_leaves_alone)
             "/music/a.lrc" Demo.world_two_songs (or_intror eq_refl)).
  - assert (Hne : os_path.dirname "/new/dir/a.lrc" <> "") by (vm_compute; discriminate).
    exact (proj2 (proj2 ensure_output_directory_leaves_alone)
             "/new/dir/a.lrc" Demo.world_two_songs Hne eq_refl).
Defined.

(** An [is_file] that raises on the second song ends discovery; a
    directory that may not be read gives no task. *)
Lemma discovery_filters_the_listing_witness :
  find_audio_files "/music" true (Demo.fresh Demo.world_broken_file)
  = (Demo.fresh Demo.world_broken_file, Raise Demo.io_error)
  /\ exists tasks : list (pathlib.Path * pathlib.Path),
       find_audio_files "/music" true (Demo.fresh Demo.world_unreadable)
       = (Demo.fresh Demo.world_unreadable, Ret tasks)
       /\ map fst tasks = [].
Proof.
  split.
  - exact (discovery_filters_the_listing "/music" true
             (Demo.fresh Demo.world_broken_file)).
  - destruct (discovery_filters_the_listing "/music" true
                (Demo.fresh Demo.world_unreadable)) as (tasks & Hfind & Hmap & _).
    exists tasks. split; [exact Hfind | exact Hmap].
Defined.

Lemma destinations_are_never_sources_witness :
  pathlib.suffix (pathlib.parse "/music/live/c.lrc") = ".lrc"
  /\ pathlib.stem (pathlib.parse "/music/live/c.lrc") = pathlib.stem Demo.song3
  /\ pathlib.parent (pathlib.parse "/music/live/c.lrc") = pathlib.parent Demo.song3
  /\ is_audio_file (lower (pathlib.suffix (pathlib.parse "/music/live/c.lrc"))) = false
  /\ forall audio' lrc',
       In (audio', lrc')
          [ (Demo.song1, pathlib.parse "/music/a.lrc");
            (Demo.song2, pathlib.parse "/music/b.lrc");
            (Demo.song3, pathlib.parse "/music/live/c.lrc") ] ->
       pathlib.parse "/music/live/c.lrc" <> audio'.
Proof.
  assert (Hfind : snd (find_audio_files "/music" true
                         (Demo.fresh Demo.world_fail_second))
                  = Ret [ (Demo.song1, pathlib.parse "/music/a.lrc");
                          (Demo.song2, pathlib.parse "/music/b.lrc");
                          (Demo.song3, pathlib.parse "/music/live/c.lrc") ])
    by (vm_compute; reflexivity).
  assert (Hin : In (Demo.song3, pathlib.parse "/music/live/c.lrc")
                   [ (Demo.song1, pathlib.parse "/music/a.lrc");
                     (Demo.song2, pathlib.parse "/music/b.lrc");
                     (Demo.song3, pathlib.parse "/music/live/c.lrc") ])
    by (cbn; tauto).
  exact (destinations_are_never_sources "/music" true
           (Demo.fresh Demo.world_fail_second) _ _ _ Hfind Hin).
Defined.

Lemma same_stem_same_destination_witness :
  lrc_of Demo.take1 = lrc_of Demo.take2
  /\ exists st' : St Demo.World,
       process_loop 2 [(1, (Demo.take1, lrc_of Demo.take1));
                       (2, (Demo.take2, lrc_of Demo.take1))] None 5 false true
         (Demo.fresh Demo.world_same_stem) = (st', Ret tt)
       /\ self st'
          = record_outcome Skipped
              (record_outcome Succeeded (self (Demo.fresh Demo.world_same_stem)))
       /\ world st'
          = Demo.mkWorld [Demo.take1; Demo.take2; pathlib.parse "/music/a.lrc"]
              [] [] []
       /\ engine_calls (trace st') = 0 + 1.
Proof.
  split.
  - exact (proj1 same_stem_same_destination Demo.take1 Demo.take2 eq_refl eq_refl).
  - exact (proj2 same_stem_same_destination (Demo.fresh Demo.world_same_stem) 2
             Demo.take1 Demo.take2 (lrc_of Demo.take1) None 5%Z false
             (Demo.mkWorld [Demo.take1; Demo.take2; pathlib.parse "/music/a.lrc"]
                [] [] [])
             "/music/a.lrc" eq_refl eq_refl eq_refl).
Defined.

Lemma second_run_skips_everything_witness :
  exists st' : St Demo.World,
    process_directory "/music" true None 5 false true (Demo.fresh Demo.world_all_done)
    = (st', Ret tt)
    /\ world st' = Demo.world_all_done
    /\ processed_count (self st') = 0
    /\ error_count (self st') = 0
    /\ skipped_count (self st') = 0 + 2
    /\ engine_calls (trace st') = 0.
Proof.
  assert (Hfind : snd (find_audio_files "/music" true (Demo.fresh Demo.world_all_done))
                  = Ret [ (Demo.song1, pathlib.parse "/music/a.lrc");
                          (Demo.song2, pathlib.parse "/music/b.lrc") ])
    by (vm_compute; reflexivity).
  refine (second_run_skips_everything (Demo.fresh Demo.world_all_done) "/music" true
            None 5%Z false _ Hfind _).
  intros audio lrc Hin. cbn [In] in Hin.
  destruct Hin as [E | [E | []]]; inversion E; reflexivity.
Defined.

Lemma engine_called_once_per_attempt_witness :
  engine_calls (trace (fst (process_directory "/music" true None 5 false true
                              (Demo.fresh Demo.world_fail_second))))
  + 0 + 0
  = 0 + 2 + 1.
Proof.
  assert (Hrun : process_directory "/music" true None 5 false true
                   (Demo.fresh Demo.world_fail_second)
                 = (fst (process_directory "/music" true None 5 false true
                           (Demo.fresh Demo.world_fail_second)), Ret tt))
    by (vm_compute; reflexivity).
  exact (engine_called_once_per_attempt _ _ _ _ _ _ _ _ Hrun).
Defined.


Lemma main_return_values_witness :
  (Some 0%Z = None \/ Some 0%Z = Some 0%Z \/ Some 0%Z = Some 1%Z)
  /\ (exit_status (Some 0%Z) = 0%Z \/ exit_status (Some 0%Z) = 1%Z).
Proof.
  assert (Hmain : main (Demo.batch_args "/music") (mkEnv Demo.world_all_done [])
                  = (fst (main (Demo.batch_args "/music")
                            (mkEnv Demo.world_all_done [])), Ret (Some 0%Z)))
    by (vm_compute; reflexivity).
  pose proof (main_return_values _ _ _ _ Hmain) as (H1 & _ & _ & H4).
  exact (conj H1 H4).
Defined.

Lemma single_mode_validates_first_witness :
  main (Demo.single_args "/music/notes.txt") (mkEnv Demo.world_fail_second [])
  = (mkEnv Demo.world_fail_second [MainError "/music/notes.txt"], Ret (Some 1%Z)).
Proof.
  assert (Hne : "/music/notes.txt" <> "") by discriminate.
  exact (single_mode_validates_first (Demo.single_args "/music/notes.txt")
           (mkEnv Demo.world_fail_second []) "/music/notes.txt"
           eq_refl Hne (or_intror eq_refl)).
Defined.

Lemma single_mode_exit_0_witness :
  snd (main (Demo.single_args "/music/a.mp3") (mkEnv Demo.world_two_songs []))
  = Ret (Some 0%Z).
Proof.
  assert (Hne : "/music/a.mp3" <> "") by discriminate.
  apply (proj2 (single_mode_exit_0 (Demo.single_args "/music/a.mp3")
                  (mkEnv Demo.world_two_songs []) "/music/a.mp3" eq_refl Hne)).
  split; [reflexivity | split; [reflexivity | ] ].
  exists Demo.world_two_songs, (mkGenerator "base" "cpu" "int8"),
    (Demo.mkWorld [Demo.song1; Demo.song2; pathlib.parse "a.lrc"] [] [] []), "a.lrc".
  split; reflexivity.
Defined.

Lemma two_entry_points_witness :
  batch_process_main (Demo.batch_process_args "/nowhere")
    (mkEnv Demo.world_two_songs [])
  = (mkEnv Demo.world_two_songs [MainError "/nowhere"], Raise sys_exit_1).
Proof.
  assert (Hne : "/nowhere" <> "") by discriminate.
  exact (proj1 (two_entry_points (Demo.batch_args "/nowhere")
                  (mkEnv Demo.world_two_songs []) "/nowhere" eq_refl eq_refl Hne)
           (or_introl eq_refl)).
Defined.

Lemma interrupt_stops_the_walk_witness :
  exists env2 : Env Demo.World,
    @main Demo.World Demo.host_interrupted (Demo.batch_args "/music")
      (mkEnv Demo.world_two_songs [])
    = (env2, Raise (mkExn KeyboardInterrupt ""))
    /\ engine_calls (env_trace env2) = 2
    /\ ~ In BatchDone (env_trace env2).
Proof.
  pose (r := @call_method Demo.World unit
               (mkProcessor (mkGenerator "base" "cpu" "int8") 0 0 0)
               (@process_directory Demo.World Demo.host_interrupted "/music" true
                  None 5%Z false true)
               (mkEnv Demo.world_two_songs [])).
  assert (Hwalk : r = (fst (fst r), snd (fst r), Raise (mkExn KeyboardInterrupt "")))
    by (vm_compute; reflexivity).
  assert (Hne : "/music" <> "") by discriminate.
  exists (snd (fst r)). split; [ | split ].
  - exact (proj2 (@interrupt_stops_the_walk Demo.World Demo.host_interrupted)
             (Demo.batch_args "/music") (mkEnv Demo.world_two_songs []) _ _ "/music"
             _ _ _ eq_refl eq_refl Hne eq_refl eq_refl Hwalk eq_refl).
  - vm_compute. reflexivity.
  - vm_compute. intros Hin.
    repeat (destruct Hin as [Hin | Hin]; [discriminate Hin | ]). exact Hin.
Defined.
